(** * Accordion and Accordion2: expand/collapse state, session storage and
      hydration-gated rendering

    A shallow embedding of [src/components/Accordion.tsx] and
    [src/components/Accordion2.tsx].  The two React components keep a set of
    expanded section ids in component state, mirror it into
    [window.sessionStorage], render a static heading until the first effects
    have run, and listen for the [beforematch] event on collapsed content.

    The host framework is modelled by explicit state passing: a [Page] holds
    the component's [useState] cells, the session storage and the DOM node
    and effect bookkeeping of every rendered section.  Event handlers are
    first-order data ([Callback]) that each component interprets. *)

From stdpp Require Import gmap strings list fin_maps.

Local Open Scope string_scope.

(** ** Browser: session storage and DOM elements *)

(** Closures handed to [onClick] and [addEventListener].  Both components
    only ever build these two shapes:
    [() => setSectionExpandedState(id, expanded)] and [handleShowAllClick]. *)
Inductive Callback :=
| CallSetSectionExpandedState (sectionId : string) (expanded : bool)
| CallHandleShowAllClick.

Global Instance Callback_eq_dec : EqDecision Callback.
Proof. solve_decision. Defined.

Module SessionStorage.
(** [window.sessionStorage.getItem(key)]: [None] is JavaScript's [null]. *)
Definition getItem (storage : gmap string string) (key : string) : option string :=
  storage !! key.

(** [window.sessionStorage.setItem(key, value)]. *)
Definition setItem (storage : gmap string string) (key value : string) : gmap string string :=
  <[key := value]> storage.
End SessionStorage.

Module Dom.
Record HTMLElement := {
  attributes : gmap string string;
  listeners : list (string * Callback)
}.

Definition setAttribute (element : HTMLElement) (name value : string) : HTMLElement :=
  {| attributes := <[name := value]> (attributes element);
     listeners := listeners element |}.

Definition removeAttribute (element : HTMLElement) (name : string) : HTMLElement :=
  {| attributes := delete name (attributes element);
     listeners := listeners element |}.

(** Every effect run creates a fresh closure, so registration always
    appends. *)
Definition addEventListener (element : HTMLElement) (type : string) (listener : Callback)
  : HTMLElement :=
  {| attributes := attributes element;
     listeners := listeners element ++ [(type, listener)] |}.

Fixpoint removeFirst (entry : string * Callback) (l : list (string * Callback))
  : list (string * Callback) :=
  match l with
  | [] => []
  | x :: l' => if decide (x = entry) then l' else x :: removeFirst entry l'
  end.

Definition removeEventListener (element : HTMLElement) (type : string) (listener : Callback)
  : HTMLElement :=
  {| attributes := attributes element;
     listeners := removeFirst (type, listener) (listeners element) |}.

(** The listeners an event of the given type would invoke, in order. *)
Definition listenersFor (element : HTMLElement) (type : string) : list Callback :=
  snd <$> List.filter (fun entry => bool_decide (fst entry = type)) (listeners element).
End Dom.

(** ** React: render output, refs and effects *)

Module React.
Inductive AttrValue :=
| AttrString (s : string)
| AttrBool (b : bool).

Record Props := {
  className : option string;
  attrs : list (string * AttrValue);
  onClick : option Callback
}.

Local Unset Elimination Schemes.
Inductive VNode :=
| Element (tag : string) (props : Props) (children : list VNode)
| TextNode (s : string).
Local Set Elimination Schemes.

(** JSX shorthands: an element without and with a click handler. *)
Definition elem (tag : string) (class : string) (attributes : list (string * AttrValue))
    (children : list VNode) : VNode :=
  Element tag {| className := Some class; attrs := attributes; onClick := None |} children.

Definition clickable (tag : string) (class : string) (attributes : list (string * AttrValue))
    (handler : Callback) (children : list VNode) : VNode :=
  Element tag {| className := Some class; attrs := attributes; onClick := Some handler |}
    children.

Definition tagOf (v : VNode) : option string :=
  match v with Element tag _ _ => Some tag | TextNode _ => None end.

Definition propsOf (v : VNode) : option Props :=
  match v with Element _ props _ => Some props | TextNode _ => None end.

Definition childrenOf (v : VNode) : list VNode :=
  match v with Element _ _ children => children | TextNode _ => [] end.

(** Follow a path of child indices below a node. *)
Fixpoint descend (path : list nat) (v : VNode) : option VNode :=
  match path with
  | [] => Some v
  | i :: path' =>
      match childrenOf v !! i with
      | Some c => descend path' c
      | None => None
      end
  end.

Fixpoint attrLookup (name : string) (l : list (string * AttrValue)) : option AttrValue :=
  match l with
  | [] => None
  | (n, v) :: l' => if decide (n = name) then Some v else attrLookup name l'
  end.

Definition attrOf (name : string) (v : VNode) : option AttrValue :=
  match propsOf v with
  | Some props => attrLookup name (attrs props)
  | None => None
  end.

Definition onClickOf (v : VNode) : option Callback :=
  match propsOf v with
  | Some props => onClick props
  | None => None
  end.

(** [classNames(base, { [modifier]: condition })]. *)
Definition classNames (base modifier : string) (condition : bool) : string :=
  if condition then base +:+ " " +:+ modifier else base.

(** [AccordionChild = ReactElement | ReactFragment | string].  For a
    non-string child the model carries both what it renders to and what a
    template literal turns it into. *)
Inductive AccordionChild :=
| ChildString (s : string)
| ChildNode (rendered : VNode) (stringified : string).

Definition renderChild (c : AccordionChild) : VNode :=
  match c with
  | ChildString s => TextNode s
  | ChildNode rendered _ => rendered
  end.

Definition templateString (c : AccordionChild) : string :=
  match c with
  | ChildString s => s
  | ChildNode _ stringified => stringified
  end.

(** JavaScript truthiness of an optional boolean prop. *)
Definition truthy (b : option bool) : bool :=
  match b with
  | Some true => true
  | _ => false
  end.

(** What a [useEffect] callback hands back: [undefined] or a function that
    removes one listener. *)
Definition Cleanup := option (string * Callback).

(** One rendered section: its [useRef] cell and the bookkeeping of its
    [useEffect(..., [expanded])]. *)
Record SectionInstance := {
  ref : option Dom.HTMLElement;
  lastDeps : option bool;
  pendingCleanup : Cleanup
}.

Definition unmounted : SectionInstance :=
  {| ref := None; lastDeps := None; pendingCleanup := None |}.

Definition runCleanup (c : Cleanup) (r : option Dom.HTMLElement) : option Dom.HTMLElement :=
  match c, r with
  | Some (type, listener), Some element =>
      Some (Dom.removeEventListener element type listener)
  | _, _ => r
  end.

(** Commit of an effect whose dependency list is [[expanded]]: skipped when
    the dependency is unchanged, otherwise the previous cleanup runs and
    then the effect body. *)
Definition commitEffect
    (effect : bool -> option Dom.HTMLElement -> option Dom.HTMLElement * Cleanup)
    (expanded : bool) (inst : SectionInstance) : SectionInstance :=
  if decide (lastDeps inst = Some expanded) then inst
  else
    let '(r, c) := effect expanded (runCleanup (pendingCleanup inst) (ref inst)) in
    {| ref := r; lastDeps := Some expanded; pendingCleanup := c |}.

(** The content [div] React creates for a section and stores in its ref. *)
Definition contentElement (sectionId : string) : Dom.HTMLElement :=
  {| Dom.attributes :=
       <["id" := sectionId]>
         (<["class" := "govuk-accordion__section-content"]>
            (<["aria-labelledby" := sectionId +:+ "-heading"]> ∅));
     Dom.listeners := [] |}.

Global Arguments contentElement : simpl never.

Definition attachRef (sectionId : string) (inst : SectionInstance) : SectionInstance :=
  {| ref := Some (contentElement sectionId);
     lastDeps := lastDeps inst;
     pendingCleanup := pendingCleanup inst |}.

(** After the [beforematch] listeners have run, the browser itself removes
    [hidden] from the matched content. *)
Definition reveal (inst : SectionInstance) : SectionInstance :=
  {| ref := (fun element => Dom.removeAttribute element "hidden") <$> ref inst;
     lastDeps := lastDeps inst;
     pendingCleanup := pendingCleanup inst |}.

(** The instance of a mounted section once the effects of a render with
    the given [expanded] value have been committed: collapsed content is
    hidden until found and carries one [beforematch] listener, expanded
    content carries neither. *)
Definition settledElement (sectionId : string) (expanded : bool) : Dom.HTMLElement :=
  if expanded then contentElement sectionId
  else
    Dom.setAttribute
      (Dom.addEventListener (contentElement sectionId) "beforematch"
         (CallSetSectionExpandedState sectionId true))
      "hidden" "until-found".

Definition settled (sectionId : string) (expanded : bool) : SectionInstance :=
  {| ref := Some (settledElement sectionId expanded);
     lastDeps := Some expanded;
     pendingCleanup :=
       if expanded then None
       else Some ("beforematch", CallSetSectionExpandedState sectionId true) |}.
End React.

(** ** The page: component state plus the browser state it touches *)

Record Page := {
  hydrated : bool;
  expandedSectionIds : gset string;
  sessionStorage : gmap string string;
  sections : list React.SectionInstance
}.

Inductive Event :=
| Mount
| ClickShowAll
| ClickHeading (index : nat)
| BeforeMatch (index : nat).

(** The storage key [`moduk.accordion.${id}.expanded`]. *)
Definition storageKey (sectionId : string) : string :=
  "moduk.accordion." +:+ sectionId +:+ ".expanded".

(** The stored flag [expanded ? "1" : "0"]. *)
Definition flag (expanded : bool) : string :=
  if expanded then "1" else "0".

(** [useState] setters and storage writes, as updates of the page. *)
Definition setHydrated (value : bool) (p : Page) : Page :=
  {| hydrated := value;
     expandedSectionIds := expandedSectionIds p;
     sessionStorage := sessionStorage p;
     sections := sections p |}.

(** [setExpandedSectionIds(updater)]; a plain value is the constant updater. *)
Definition setExpandedSectionIds (updater : gset string -> gset string) (p : Page) : Page :=
  {| hydrated := hydrated p;
     expandedSectionIds := updater (expandedSectionIds p);
     sessionStorage := sessionStorage p;
     sections := sections p |}.

Definition writeStorage (write : gmap string string -> gmap string string) (p : Page) : Page :=
  {| hydrated := hydrated p;
     expandedSectionIds := expandedSectionIds p;
     sessionStorage := write (sessionStorage p);
     sections := sections p |}.

Definition setSections (l : list React.SectionInstance) (p : Page) : Page :=
  {| hydrated := hydrated p;
     expandedSectionIds := expandedSectionIds p;
     sessionStorage := sessionStorage p;
     sections := l |}.

(** [hidden="until-found"] content is what the browser's find-in-page can
    reveal; it fires [beforematch] on it and then drops the attribute. *)
Definition revealable (element : Dom.HTMLElement) : bool :=
  bool_decide (Dom.attributes element !! "hidden" = Some "until-found").

(** ** Accordion.tsx: the data-driven component *)

Module Accordion.
Import React.

Record AccordionItem := {
  heading : AccordionChild;
  content : AccordionChild;
  id : string;
  defaultExpanded : option bool
}.

(** [AccordionControls]: renders nothing until hydrated. *)
Definition AccordionControls (expanded hydrated : bool) (onClick : Callback)
  : option VNode :=
  if negb hydrated then None
  else
    Some
      (elem "div" "govuk-accordion__controls" []
         [clickable "button" "govuk-accordion__show-all"
            [("type", AttrString "button"); ("aria-expanded", AttrBool expanded)]
            onClick
            [elem "span"
               (classNames "govuk-accordion-nav__chevron"
                  "govuk-accordion-nav__chevron--down" (negb expanded))
               [] [];
             elem "span" "govuk-accordion__show-all-text" []
               [TextNode (if expanded then "Hide" else "Show");
                TextNode " all sections"]]]).

(** [AccordionHeadingButton]: a static span before hydration, a toggle
    button afterwards. *)
Definition AccordionHeadingButton (sectionId headingId : string)
    (expanded hydrated : bool) (children : AccordionChild) : VNode :=
  if negb hydrated then
    elem "span" "govuk-accordion__section-button" [("id", AttrString headingId)]
      [renderChild children]
  else
    let toggleLabel := if expanded then "Hide" else "Show" in
    clickable "button" "govuk-accordion__section-button"
      [("type", AttrString "button");
       ("aria-controls", AttrString sectionId);
       ("aria-expanded", AttrBool expanded);
       ("aria-label",
        AttrString (templateString children +:+ " , " +:+ toggleLabel +:+ " this section"))]
      (CallSetSectionExpandedState sectionId (negb expanded))
      [elem "span" "govuk-accordion__section-heading-text" [("id", AttrString headingId)]
         [elem "span" "govuk-accordion__section-heading-text-focus" []
            [renderChild children]];
       elem "span" "govuk-visually-hidden govuk-accordion__section-heading-divider" []
         [TextNode ","];
       elem "span" "govuk-accordion__section-toggle" [("data-nosnippet", AttrString "")]
         [elem "span" "govuk-accordion__section-toggle-focus" []
            [elem "span"
               (classNames "govuk-accordion-nav__chevron"
                  "govuk-accordion-nav__chevron--down" (negb expanded))
               [] [];
             elem "span" "govuk-accordion__section-toggle-text" []
               [TextNode toggleLabel]]]].

(** The effect of [AccordionSection], dependency list [[expanded]]. *)
Definition sectionEffect (item : AccordionItem) (expanded : bool)
    (current : option Dom.HTMLElement) : option Dom.HTMLElement * Cleanup :=
  match current with
  | None => (None, None)
  | Some element =>
      let handleBeforeMatch := CallSetSectionExpandedState (id item) true in
      if expanded then (Some (Dom.removeAttribute element "hidden"), None)
      else
        let element := Dom.addEventListener element "beforematch" handleBeforeMatch in
        let element := Dom.setAttribute element "hidden" "until-found" in
        (Some element, Some ("beforematch", handleBeforeMatch))
  end.

(** What [AccordionSection] returns. *)
Definition AccordionSection (expanded : bool) (headingId : string) (hydrated : bool)
    (item : AccordionItem) : VNode :=
  elem "div"
    (classNames "govuk-accordion__section" "govuk-accordion__section--expanded" expanded)
    []
    [elem "div" "govuk-accordion__section-header" []
       [elem "h2" "govuk-accordion__section-heading" []
          [AccordionHeadingButton (id item) headingId expanded hydrated (heading item)]];
     elem "div" "govuk-accordion__section-content"
       [("id", AttrString (id item)); ("aria-labelledby", AttrString headingId)]
       [elem "p" "govuk-body" [] [renderChild (content item)]]].

(** Where the heading (span or button) sits below a section's root. *)
Definition headingPath : list nat := [0; 0; 0]%nat.

(** Where the show-all button sits below the controls' root. *)
Definition showAllPath : list nat := [0]%nat.

(** The filter callback of the reconciliation effect. *)
Definition storedOrDefault (storage : gmap string string) (item : AccordionItem) : bool :=
  match SessionStorage.getItem storage (storageKey (id item)) with
  | Some sessionState => bool_decide (sessionState = "1")
  | None => truthy (defaultExpanded item)
  end.

(** The reconciliation effect, dependency list [[hydrated]]; the argument
    is the value of [hydrated] in the render that scheduled it. *)
Definition reconcileEffect (items : list AccordionItem) (hydratedAtRender : bool)
    (p : Page) : Page :=
  if hydratedAtRender then p
  else
    setExpandedSectionIds
      (fun _ =>
         list_to_set (id <$> List.filter (storedOrDefault (sessionStorage p)) items))
      p.

Definition saveSectionExpandedState (sectionId : string) (expanded : bool)
    (storage : gmap string string) : gmap string string :=
  SessionStorage.setItem storage (storageKey sectionId) (flag expanded).

Definition saveAllSectionExpandedState (items : list AccordionItem) (expanded : bool)
    (storage : gmap string string) : gmap string string :=
  foldl
    (fun storage item => SessionStorage.setItem storage (storageKey (id item)) (flag expanded))
    storage items.

Definition allExpanded (items : list AccordionItem) (expandedSectionIds : gset string)
  : bool :=
  forallb (fun item => bool_decide (id item ∈ expandedSectionIds)) items.

Definition handleShowAllClick (items : list AccordionItem) (p : Page) : Page :=
  if allExpanded items (expandedSectionIds p) then
    let p := setExpandedSectionIds (fun _ => ∅) p in
    writeStorage (saveAllSectionExpandedState items false) p
  else
    let p := setExpandedSectionIds (fun _ => list_to_set (id <$> items)) p in
    writeStorage (saveAllSectionExpandedState items true) p.

Definition setSectionExpandedState (sectionId : string) (expanded : bool) (p : Page)
  : Page :=
  let p := writeStorage (saveSectionExpandedState sectionId expanded) p in
  setExpandedSectionIds
    (fun expandedSectionIds =>
       if expanded then {[sectionId]} ∪ expandedSectionIds
       else expandedSectionIds ∖ {[sectionId]})
    p.

(** The pieces of the returned tree. *)
Definition renderControls (items : list AccordionItem) (p : Page) : option VNode :=
  AccordionControls (allExpanded items (expandedSectionIds p)) (hydrated p)
    CallHandleShowAllClick.

Definition renderSection (p : Page) (item : AccordionItem) : VNode :=
  AccordionSection (bool_decide (id item ∈ expandedSectionIds p))
    (id item +:+ "-heading") (hydrated p) item.

Definition renderSections (items : list AccordionItem) (p : Page) : list VNode :=
  renderSection p <$> items.

Definition render (items : list AccordionItem) (p : Page) : VNode :=
  Element "div"
    {| className := Some "govuk-accordion";
       attrs := [("data-module", AttrString "govuk-accordion");
                 ("id", AttrString "accordion-default")];
       onClick := None |}
    (option_list (renderControls items p) ++ renderSections items p).

(** The first render, on the server or in the browser before any effect. *)
Definition init (items : list AccordionItem) (storage : gmap string string) : Page :=
  {| hydrated := false;
     expandedSectionIds := ∅;
     sessionStorage := storage;
     sections := (fun _ => unmounted) <$> items |}.

(** React attaches the refs of a freshly committed tree. *)
Definition attachRefs (items : list AccordionItem) (p : Page) : Page :=
  setSections (zip_with (fun item inst => attachRef (id item) inst) items (sections p)) p.

(** The section effects of one commit, given the state that was rendered. *)
Definition commitSections (items : list AccordionItem) (p : Page) : Page :=
  setSections
    (zip_with
       (fun item inst =>
          commitEffect (sectionEffect item) (bool_decide (id item ∈ expandedSectionIds p))
            inst)
       items (sections p))
    p.

(** The first commit in the browser: refs are attached, the effects of the
    first render run (children before the parent, hooks in order), and the
    state they set is rendered and committed in turn. *)
Definition mount (items : list AccordionItem) (p : Page) : Page :=
  let hydratedAtRender := hydrated p in
  let p := attachRefs items p in
  let p := commitSections items p in
  let p := setHydrated true p in
  let p := reconcileEffect items hydratedAtRender p in
  let p := commitSections items p in
  reconcileEffect items (hydrated p) p.

Definition runCallback (items : list AccordionItem) (c : Callback) (p : Page) : Page :=
  match c with
  | CallSetSectionExpandedState sectionId expanded =>
      setSectionExpandedState sectionId expanded p
  | CallHandleShowAllClick => handleShowAllClick items p
  end.

(** A click on a rendered node runs its [onClick], then React renders and
    commits the new state. *)
Definition click (items : list AccordionItem) (target : option VNode) (p : Page)
  : option Page :=
  match target ≫= onClickOf with
  | Some c => Some (commitSections items (runCallback items c p))
  | None => None
  end.

(** The browser reveals a find-in-page match inside a section's content:
    the [beforematch] listeners run, the browser drops [hidden], and React
    renders and commits the new state. *)
Definition beforematch (items : list AccordionItem) (index : nat) (p : Page)
  : option Page :=
  match sections p !! index with
  | Some {| ref := Some element; lastDeps := deps; pendingCleanup := c |} =>
      if revealable element then
        let p := foldl (fun p c => runCallback items c p) p
                   (Dom.listenersFor element "beforematch") in
        let p := setSections (alter reveal index (sections p)) p in
        Some (commitSections items p)
      else None
  | _ => None
  end.

Definition step (items : list AccordionItem) (p : Page) (ev : Event) : option Page :=
  match ev with
  | Mount => if hydrated p then None else Some (mount items p)
  | ClickShowAll => click items (renderControls items p ≫= descend showAllPath) p
  | ClickHeading index =>
      click items (renderSections items p !! index ≫= descend headingPath) p
  | BeforeMatch index => beforematch items index p
  end.

Fixpoint run (items : list AccordionItem) (p : Page) (evs : list Event) : option Page :=
  match evs with
  | [] => Some p
  | ev :: evs' =>
      match step items p ev with
      | Some p' => run items p' evs'
      | None => None
      end
  end.

(** The pages a browser session can be in. *)
Definition reachable (items : list AccordionItem) (p : Page) : Prop :=
  ∃ storage evs, run items (init items storage) evs = Some p.

(** The ids of the sections supplied to the component. *)
Definition sectionIds (items : list AccordionItem) : gset string :=
  list_to_set (id <$> items).

(** A page as first rendered: not hydrated, nothing mounted, and only
    supplied sections expanded. *)
Definition prerendered (items : list AccordionItem) (p : Page) : Prop :=
  hydrated p = false ∧
  sections p = (fun _ => unmounted) <$> items ∧
  expandedSectionIds p ⊆ sectionIds items.

(** The section instances that agree with a set of expanded ids. *)
Definition settledSections (items : list AccordionItem) (expanded : gset string)
  : list SectionInstance :=
  (fun item => settled (id item) (bool_decide (id item ∈ expanded))) <$> items.

(** A hydrated page whose DOM agrees with its state. *)
Definition interactive (items : list AccordionItem) (p : Page) : Prop :=
  hydrated p = true ∧
  sections p = settledSections items (expandedSectionIds p) ∧
  expandedSectionIds p ⊆ sectionIds items.
End Accordion.

(** ** Accordion2.tsx: the composable component *)

Module Accordion2.
Import React.

Record AccordionItemProps := {
  heading : AccordionChild;
  id : string;
  defaultExpanded : option bool;
  children : AccordionChild
}.

(** What [Children.toArray(children)] can hold: [Accordion2Item] elements,
    and nodes for which [isValidElement] is false (text). *)
Inductive ReactNode :=
| ItemElement (props : AccordionItemProps)
| TextChild (s : string).

Definition isValidElement (child : ReactNode) : option AccordionItemProps :=
  match child with
  | ItemElement props => Some props
  | TextChild _ => None
  end.

(** [Children.toArray(children).filter(isValidElement)], as the props of
    the elements kept. *)
Definition validChildren (children : list ReactNode) : list AccordionItemProps :=
  omap isValidElement children.

(** The value handed to [AccordionContext.Provider]; [setSectionState] is
    the component's own and is referred to by [Callback]. *)
Record AccordionContextProps := {
  contextExpandedSectionIds : gset string;
  contextHydrated : bool
}.

(** [AccordionControls]: always renders; the caller gates it. *)
Definition AccordionControls (expanded : bool) (onClick : Callback) : VNode :=
  elem "div" "govuk-accordion__controls" []
    [clickable "button" "govuk-accordion__show-all"
       [("type", AttrString "button"); ("aria-expanded", AttrBool expanded)]
       onClick
       [elem "span"
          (classNames "govuk-accordion-nav__chevron"
             "govuk-accordion-nav__chevron--down" (negb expanded))
          [] [];
        elem "span" "govuk-accordion__show-all-text" []
          [TextNode (if expanded then "Hide" else "Show");
           TextNode " all sections"]]].

Definition AccordionHeadingButton (accordionContext : AccordionContextProps)
    (contentId headingId : string) (expanded : bool) (children : AccordionChild) : VNode :=
  if negb (contextHydrated accordionContext) then
    elem "span" "govuk-accordion__section-button" [("id", AttrString headingId)]
      [renderChild children]
  else
    let toggleLabel := if expanded then "Hide" else "Show" in
    clickable "button" "govuk-accordion__section-button"
      [("type", AttrString "button");
       ("aria-controls", AttrString contentId);
       ("aria-expanded", AttrBool expanded);
       ("aria-label",
        AttrString (templateString children +:+ " , " +:+ toggleLabel +:+ " this section"))]
      (CallSetSectionExpandedState contentId (negb expanded))
      [elem "span" "govuk-accordion__section-heading-text" [("id", AttrString headingId)]
         [elem "span" "govuk-accordion__section-heading-text-focus" []
            [renderChild children]];
       elem "span" "govuk-visually-hidden govuk-accordion__section-heading-divider" []
         [TextNode ","];
       elem "span" "govuk-accordion__section-toggle" [("data-nosnippet", AttrString "")]
         [elem "span" "govuk-accordion__section-toggle-focus" []
            [elem "span"
               (classNames "govuk-accordion-nav__chevron"
                  "govuk-accordion-nav__chevron--down" (negb expanded))
               [] [];
             elem "span" "govuk-accordion__section-toggle-text" []
               [TextNode toggleLabel]]]].

(** The effect of [Accordion2Item], dependency list [[expanded]]. *)
Definition itemEffect (props : AccordionItemProps) (expanded : bool)
    (current : option Dom.HTMLElement) : option Dom.HTMLElement * Cleanup :=
  match current with
  | None => (None, None)
  | Some element =>
      let handleBeforeMatch := CallSetSectionExpandedState (id props) true in
      if expanded then (Some (Dom.removeAttribute element "hidden"), None)
      else
        let element := Dom.addEventListener element "beforematch" handleBeforeMatch in
        let element := Dom.setAttribute element "hidden" "until-found" in
        (Some element, Some ("beforematch", handleBeforeMatch))
  end.

(** What [Accordion2Item] returns; the heading button is given the item's
    [children], as in the source. *)
Definition Accordion2Item (accordionContext : AccordionContextProps)
    (props : AccordionItemProps) : VNode :=
  let expanded := bool_decide (id props ∈ contextExpandedSectionIds accordionContext) in
  elem "div"
    (classNames "govuk-accordion__section" "govuk-accordion__section--expanded" expanded)
    []
    [elem "div" "govuk-accordion__section-header" []
       [elem "h2" "govuk-accordion__section-heading" []
          [AccordionHeadingButton accordionContext (id props) (id props +:+ "-heading")
             expanded (children props)]];
     elem "div" "govuk-accordion__section-content"
       [("id", AttrString (id props));
        ("aria-labelledby", AttrString (id props +:+ "-heading"))]
       [elem "p" "govuk-body" [] [renderChild (children props)]]].

Definition headingPath : list nat := [0; 0; 0]%nat.

Definition showAllPath : list nat := [0]%nat.

(** The initial value of the [expandedSectionIds] state. *)
Definition initialExpandedSectionIds (children : list ReactNode) : gset string :=
  list_to_set
    (id <$> List.filter (fun child => truthy (defaultExpanded child)) (validChildren children)).

Definition storedOrDefault (storage : gmap string string) (child : AccordionItemProps)
  : bool :=
  match SessionStorage.getItem storage (storageKey (id child)) with
  | Some sessionState => bool_decide (sessionState = "1")
  | None => truthy (defaultExpanded child)
  end.

Definition reconcileEffect (children : list ReactNode) (hydratedAtRender : bool)
    (p : Page) : Page :=
  if hydratedAtRender then p
  else
    setExpandedSectionIds
      (fun _ =>
         list_to_set
           (id <$> List.filter (storedOrDefault (sessionStorage p)) (validChildren children)))
      p.

Definition saveSectionExpandedState (sectionId : string) (expanded : bool)
    (storage : gmap string string) : gmap string string :=
  SessionStorage.setItem storage (storageKey sectionId) (flag expanded).

Definition saveAllSectionExpandedState (children : list ReactNode) (expanded : bool)
    (storage : gmap string string) : gmap string string :=
  foldl
    (fun storage child =>
       SessionStorage.setItem storage (storageKey (id child)) (flag expanded))
    storage (validChildren children).

Definition allExpanded (children : list ReactNode) (expandedSectionIds : gset string)
  : bool :=
  forallb (fun child => bool_decide (id child ∈ expandedSectionIds))
    (validChildren children).

Definition handleShowAllClick (children : list ReactNode) (p : Page) : Page :=
  let allExpanded := allExpanded children (expandedSectionIds p) in
  let p := writeStorage (saveAllSectionExpandedState children (negb allExpanded)) p in
  if allExpanded then setExpandedSectionIds (fun _ => ∅) p
  else
    setExpandedSectionIds (fun _ => list_to_set (id <$> validChildren children)) p.

Definition setSectionState (sectionId : string) (expanded : bool) (p : Page) : Page :=
  let p := writeStorage (saveSectionExpandedState sectionId expanded) p in
  setExpandedSectionIds
    (fun expandedSectionIds =>
       if expanded then {[sectionId]} ∪ expandedSectionIds
       else expandedSectionIds ∖ {[sectionId]})
    p.

Definition contextOf (p : Page) : AccordionContextProps :=
  {| contextExpandedSectionIds := expandedSectionIds p;
     contextHydrated := hydrated p |}.

(** [hydrated && <AccordionControls ... />]. *)
Definition renderControls (children : list ReactNode) (p : Page) : option VNode :=
  if hydrated p then
    Some (AccordionControls (allExpanded children (expandedSectionIds p))
            CallHandleShowAllClick)
  else None.

Definition renderSection (p : Page) (props : AccordionItemProps) : VNode :=
  Accordion2Item (contextOf p) props.

(** The rendered [Accordion2Item]s, in order. *)
Definition renderSections (children : list ReactNode) (p : Page) : list VNode :=
  renderSection p <$> validChildren children.

Definition renderNode (p : Page) (child : ReactNode) : VNode :=
  match child with
  | ItemElement props => renderSection p props
  | TextChild s => TextNode s
  end.

Definition render (children : list ReactNode) (p : Page) : VNode :=
  Element "div"
    {| className := Some "govuk-accordion";
       attrs := [("data-module", AttrString "govuk-accordion");
                 ("id", AttrString "accordion-default")];
       onClick := None |}
    (option_list (renderControls children p) ++ (renderNode p <$> children)).

Definition init (children : list ReactNode) (storage : gmap string string) : Page :=
  {| hydrated := false;
     expandedSectionIds := initialExpandedSectionIds children;
     sessionStorage := storage;
     sections := (fun _ => unmounted) <$> validChildren children |}.

Definition attachRefs (children : list ReactNode) (p : Page) : Page :=
  setSections
    (zip_with (fun child inst => attachRef (id child) inst) (validChildren children)
       (sections p))
    p.

Definition commitSections (children : list ReactNode) (p : Page) : Page :=
  setSections
    (zip_with
       (fun child inst =>
          commitEffect (itemEffect child) (bool_decide (id child ∈ expandedSectionIds p))
            inst)
       (validChildren children) (sections p))
    p.

Definition mount (children : list ReactNode) (p : Page) : Page :=
  let hydratedAtRender := hydrated p in
  let p := attachRefs children p in
  let p := commitSections children p in
  let p := setHydrated true p in
  let p := reconcileEffect children hydratedAtRender p in
  let p := commitSections children p in
  reconcileEffect children (hydrated p) p.

Definition runCallback (children : list ReactNode) (c : Callback) (p : Page) : Page :=
  match c with
  | CallSetSectionExpandedState sectionId expanded => setSectionState sectionId expanded p
  | CallHandleShowAllClick => handleShowAllClick children p
  end.

Definition click (children : list ReactNode) (target : option VNode) (p : Page)
  : option Page :=
  match target ≫= onClickOf with
  | Some c => Some (commitSections children (runCallback children c p))
  | None => None
  end.

Definition beforematch (children : list ReactNode) (index : nat) (p : Page)
  : option Page :=
  match sections p !! index with
  | Some {| ref := Some element; lastDeps := deps; pendingCleanup := c |} =>
      if revealable element then
        let p := foldl (fun p c => runCallback children c p) p
                   (Dom.listenersFor element "beforematch") in
        let p := setSections (alter reveal index (sections p)) p in
        Some (commitSections children p)
      else None
  | _ => None
  end.

Definition step (children : list ReactNode) (p : Page) (ev : Event) : option Page :=
  match ev with
  | Mount => if hydrated p then None else Some (mount children p)
  | ClickShowAll => click children (renderControls children p ≫= descend showAllPath) p
  | ClickHeading index =>
      click children (renderSections children p !! index ≫= descend headingPath) p
  | BeforeMatch index => beforematch children index p
  end.

Fixpoint run (children : list ReactNode) (p : Page) (evs : list Event) : option Page :=
  match evs with
  | [] => Some p
  | ev :: evs' =>
      match step children p ev with
      | Some p' => run children p' evs'
      | None => None
      end
  end.

Definition reachable (children : list ReactNode) (p : Page) : Prop :=
  ∃ storage evs, run children (init children storage) evs = Some p.

(** The items array that presents the same sections as the children. *)
Definition toItem (props : AccordionItemProps) : Accordion.AccordionItem :=
  {| Accordion.heading := heading props;
     Accordion.content := children props;
     Accordion.id := id props;
     Accordion.defaultExpanded := defaultExpanded props |}.

Definition toItems (children : list ReactNode) : list Accordion.AccordionItem :=
  toItem <$> validChildren children.

(** The children that present the sections of an items array. *)
Definition toItemProps (item : Accordion.AccordionItem) : AccordionItemProps :=
  {| heading := Accordion.heading item;
     id := Accordion.id item;
     defaultExpanded := Accordion.defaultExpanded item;
     children := Accordion.content item |}.

Definition ofItem (item : Accordion.AccordionItem) : ReactNode :=
  ItemElement (toItemProps item).

Definition ofItems (items : list Accordion.AccordionItem) : list ReactNode :=
  ofItem <$> items.
End Accordion2.

(** ** Vocabulary of the properties *)

(** A heading that cannot be interacted with. *)
Definition staticHeading (h : React.VNode) : Prop :=
  React.tagOf h = Some "span" ∧
  React.onClickOf h = None ∧
  React.attrOf "aria-expanded" h = None.

(** A heading that toggles the section and announces its state. *)
Definition toggleButton (sectionId : string) (expanded : bool) (h : React.VNode) : Prop :=
  React.tagOf h = Some "button" ∧
  React.attrOf "aria-expanded" h = Some (React.AttrBool expanded) ∧
  React.onClickOf h = Some (CallSetSectionExpandedState sectionId (negb expanded)).

(** What the storage flag and the static hint say about a section: the flag
    is ["1"], or there is no flag and the hint is [true]. *)
Definition storedOrHinted (storage : gmap string string) (sectionId : string)
    (hint : option bool) : Prop :=
  SessionStorage.getItem storage (storageKey sectionId) = Some "1" ∨
  (SessionStorage.getItem storage (storageKey sectionId) = None ∧ hint = Some true).

(** The [class] attribute of a rendered element. *)
Definition classOf (v : React.VNode) : option string :=
  React.propsOf v ≫= React.className.

(** How a session may change the storage: a key keeps its value, or it is
    one of the given flag keys and now holds ["0"] or ["1"]. *)
Definition onlyFlagsWritten (keys : list string) (before after : gmap string string)
  : Prop :=
  ∀ k, after !! k = before !! k ∨
       (k ∈ keys ∧ (after !! k = Some "0" ∨ after !! k = Some "1")).

(** A small accordion used to exercise the statements. *)
Module Demo.
Definition intro : Accordion.AccordionItem :=
  {| Accordion.heading := React.ChildString "Introduction";
     Accordion.content := React.ChildString "Welcome";
     Accordion.id := "intro";
     Accordion.defaultExpanded := Some true |}.

Definition details : Accordion.AccordionItem :=
  {| Accordion.heading := React.ChildString "Details";
     Accordion.content := React.ChildString "More";
     Accordion.id := "details";
     Accordion.defaultExpanded := None |}.

Definition items : list Accordion.AccordionItem := [intro; details].

Definition children : list Accordion2.ReactNode :=
  [Accordion2.ofItem intro; Accordion2.TextChild " "; Accordion2.ofItem details].

Definition introProps : Accordion2.AccordionItemProps :=
  Accordion2.toItemProps intro.

(** The pages right after the first commit, on empty storage. *)
Definition mounted : Page := Accordion.mount items (Accordion.init items ∅).

Definition mounted2 : Page := Accordion2.mount children (Accordion2.init children ∅).

Definition detailsProps : Accordion2.AccordionItemProps :=
  Accordion2.toItemProps details.

(** A session: mount, open "details", hide all, find text inside "intro". *)
Definition session : list Event :=
  [Mount; ClickHeading 1; ClickShowAll; BeforeMatch 0].

Definition visited : Page :=
  default (Accordion.init items ∅)
    (Accordion.run items (Accordion.init items ∅) session).

Definition visited2 : Page :=
  default (Accordion2.init children ∅)
    (Accordion2.run children (Accordion2.init children ∅) session).
End Demo.

(** * Properties *)

(** ** Storage keys *)

Lemma string_app_cons (a : Ascii.ascii) (s t : string) :
  String a s +:+ t = String a (s +:+ t).
Proof. reflexivity. Qed.

Lemma string_app_length (s t : string) :
  String.length (s +:+ t) = (String.length s + String.length t)%nat.
Proof.
  induction s as [|a s IH]; [done|].
  rewrite string_app_cons. simpl. by rewrite IH.
Qed.

Lemma string_app_inj_r (s1 s2 t : string) : s1 +:+ t = s2 +:+ t → s1 = s2.
Proof.
  revert s2. induction s1 as [|a s1 IH]; intros [|b s2] H.
  - done.
  - apply (f_equal String.length) in H.
    rewrite !string_app_length in H. simpl in H. lia.
  - apply (f_equal String.length) in H.
    rewrite !string_app_length in H. simpl in H. lia.
  - rewrite !string_app_cons in H. injection H as -> H. f_equal. by apply IH.
Qed.

Lemma storageKey_inj (id1 id2 : string) : storageKey id1 = storageKey id2 → id1 = id2.
Proof.
  unfold storageKey. intros H.
  apply (inj (String.app "moduk.accordion.")) in H.
  by apply string_app_inj_r in H.
Qed.


(** ** Session storage writes *)

Section storage.
Import Accordion.

Lemma saveAll_lookup (items : list AccordionItem) (e : bool)
    (storage : gmap string string) (k : string) :
  saveAllSectionExpandedState items e storage !! k =
    if decide (k ∈ (fun item => storageKey (id item)) <$> items)
    then Some (flag e) else storage !! k.
Proof.
  unfold saveAllSectionExpandedState, SessionStorage.setItem.
  revert storage. induction items as [|item items IH]; intros storage.
  - rewrite decide_False; [done|]. apply not_elem_of_nil.
  - cbn [foldl]. rewrite IH, fmap_cons.
    destruct (decide (k ∈ (fun item => storageKey (id item)) <$> items)) as [Hin|Hout].
    + rewrite decide_True; [done|]. by apply list_elem_of_further.
    + destruct (decide (storageKey (id item) = k)) as [Heq|Hne].
      * rewrite decide_True; [|rewrite <- Heq; apply list_elem_of_here].
        rewrite <- Heq. by rewrite lookup_insert_eq.
      * rewrite decide_False.
        -- by rewrite lookup_insert_ne.
        -- intros [Heq|Hin]%elem_of_cons; [by apply Hne|by apply Hout].
Qed.


Lemma allExpanded_true (items : list AccordionItem) (s : gset string) :
  allExpanded items s = true ↔ ∀ item, item ∈ items → id item ∈ s.
Proof.
  unfold allExpanded. rewrite forallb_forall. split.
  - intros H item Hin. apply list_elem_of_In in Hin.
    specialize (H item Hin). by apply bool_decide_eq_true in H.
  - intros H item Hin. apply bool_decide_eq_true, H. by apply list_elem_of_In.
Qed.


Lemma elem_of_reconciled (items : list AccordionItem) (storage : gmap string string)
    (x : string) :
  x ∈@{gset string} list_to_set (id <$> List.filter (storedOrDefault storage) items) ↔
  ∃ item, item ∈ items ∧ id item = x ∧ storedOrDefault storage item = true.
Proof.
  rewrite elem_of_list_to_set, list_elem_of_fmap. split.
  - intros (item & -> & Hin). apply list_elem_of_In, filter_In in Hin.
    destruct Hin as [Hin Hkeep]. exists item. by rewrite list_elem_of_In.
  - intros (item & Hin & <- & Hkeep). exists item. split; [done|].
    apply list_elem_of_In, filter_In. by rewrite <- list_elem_of_In.
Qed.

Lemma reconciled_subseteq (items : list AccordionItem) (storage : gmap string string) :
  list_to_set (id <$> List.filter (storedOrDefault storage) items) ⊆ sectionIds items.
Proof.
  intros x Hx. apply elem_of_reconciled in Hx. destruct Hx as (item & Hin & <- & _).
  apply elem_of_list_to_set, list_elem_of_fmap. eauto.
Qed.
End storage.

(** ** Section effects and the DOM *)

Section dom.
Import React.

Lemma contentElement_not_hidden (sectionId : string) :
  Dom.attributes (contentElement sectionId) !! "hidden" = None.
Proof.
  unfold contentElement. cbn [Dom.attributes].
  rewrite !lookup_insert_ne by done. apply lookup_empty.
Qed.

Lemma contentElement_listeners (sectionId : string) :
  Dom.listeners (contentElement sectionId) = [].
Proof. reflexivity. Qed.

Lemma removeAttribute_content (sectionId : string) :
  Dom.removeAttribute (contentElement sectionId) "hidden" = contentElement sectionId.
Proof.
  unfold Dom.removeAttribute.
  rewrite delete_id by apply contentElement_not_hidden. done.
Qed.

Lemma removeAttribute_collapsed (sectionId : string) (l : list (string * Callback)) :
  Dom.removeAttribute
    {| Dom.attributes :=
         <["hidden" := "until-found"]> (Dom.attributes (contentElement sectionId));
       Dom.listeners := l |} "hidden" =
  {| Dom.attributes := Dom.attributes (contentElement sectionId); Dom.listeners := l |}.
Proof.
  unfold Dom.removeAttribute. cbn [Dom.attributes Dom.listeners].
  rewrite delete_insert_eq, delete_id by apply contentElement_not_hidden. done.
Qed.

Lemma settledElement_revealable (sectionId : string) (expanded : bool) :
  revealable (settledElement sectionId expanded) = negb expanded.
Proof.
  unfold revealable, settledElement. destruct expanded; cbn.
  - apply bool_decide_eq_false. by rewrite contentElement_not_hidden.
  - apply bool_decide_eq_true. by rewrite lookup_insert_eq.
Qed.

Lemma settledElement_listeners (sectionId : string) (expanded : bool) :
  Dom.listenersFor (settledElement sectionId expanded) "beforematch" =
    if expanded then [] else [CallSetSectionExpandedState sectionId true].
Proof. by destruct expanded. Qed.

Lemma commit_fresh (item : Accordion.AccordionItem) (d : bool) :
  commitEffect (Accordion.sectionEffect item) d
    (attachRef (Accordion.id item) unmounted) =
  settled (Accordion.id item) d.
Proof.
  unfold commitEffect, attachRef, settled, settledElement. cbn.
  destruct d; cbn; [|done].
  by rewrite removeAttribute_content.
Qed.

Lemma commit_settled (item : Accordion.AccordionItem) (d d' : bool) :
  commitEffect (Accordion.sectionEffect item) d' (settled (Accordion.id item) d) =
  settled (Accordion.id item) d'.
Proof.
  unfold commitEffect. cbn [lastDeps settled].
  destruct (decide (Some d = Some d')) as [[= ->]|Hne]; [done|].
  destruct d, d'; try done; unfold settled, settledElement; cbn.
  unfold Dom.removeEventListener, Dom.setAttribute, Dom.addEventListener; cbn.
  rewrite contentElement_listeners; cbn.
  rewrite decide_True by done.
  rewrite removeAttribute_collapsed. reflexivity.
Qed.

Lemma commit_revealed (item : Accordion.AccordionItem) :
  commitEffect (Accordion.sectionEffect item) true
    (reveal (settled (Accordion.id item) false)) =
  settled (Accordion.id item) true.
Proof.
  unfold commitEffect, reveal, settled, settledElement. cbn.
  unfold Dom.removeEventListener, Dom.setAttribute, Dom.addEventListener; cbn.
  rewrite contentElement_listeners; cbn.
  rewrite decide_False by done.
  rewrite decide_True by done.
  unfold Dom.removeAttribute; cbn.
  rewrite delete_insert_eq.
  rewrite !delete_id by apply contentElement_not_hidden.
  reflexivity.
Qed.
End dom.

(** ** Commits of the Accordion component *)

Section accordion_commits.
Import React Accordion.

Lemma zip_with_fmap_same {A B C} (g : A → B → C) (f : A → B) (l : list A) :
  zip_with g l (f <$> l) = (fun x => g x (f x)) <$> l.
Proof. induction l as [|x l IH]; [done|]. cbn. by rewrite IH. Qed.

Lemma commitSections_fresh (items : list AccordionItem) (p : Page) :
  sections p = (fun _ => unmounted) <$> items →
  commitSections items (attachRefs items p) =
  setSections (settledSections items (expandedSectionIds p)) p.
Proof.
  intros Hs. unfold commitSections, attachRefs, setSections, settledSections. cbn.
  f_equal. rewrite Hs, zip_with_fmap_same, zip_with_fmap_same.
  apply list_fmap_ext. intros _ item _. apply commit_fresh.
Qed.

Lemma commitSections_settled (items : list AccordionItem) (s : gset string) (p : Page) :
  sections p = settledSections items s →
  commitSections items p = setSections (settledSections items (expandedSectionIds p)) p.
Proof.
  intros Hs. unfold commitSections, setSections, settledSections. f_equal.
  rewrite Hs. unfold settledSections. rewrite zip_with_fmap_same.
  apply list_fmap_ext. intros _ item _. apply commit_settled.
Qed.

Lemma commitSections_revealed (items : list AccordionItem) (s : gset string) (p : Page)
    (index : nat) (item : AccordionItem) :
  items !! index = Some item →
  id item ∉ s →
  id item ∈ expandedSectionIds p →
  sections p = alter reveal index (settledSections items s) →
  commitSections items p = setSections (settledSections items (expandedSectionIds p)) p.
Proof.
  intros Hitem Hout Hin Hs. unfold commitSections, setSections. f_equal.
  rewrite Hs. unfold settledSections. apply list_eq. intros j.
  rewrite lookup_zip_with, list_lookup_alter, !list_lookup_fmap.
  destruct (decide (index = j)) as [<-|Hne].
  - rewrite Hitem. cbn.
    rewrite (bool_decide_eq_false_2 _ Hout), (bool_decide_eq_true_2 _ Hin).
    by rewrite commit_revealed.
  - destruct (items !! j) as [item'|]; [|done]. cbn.
    by rewrite commit_settled.
Qed.

(** The page the first commit leaves behind. *)
Lemma mount_prerendered (items : list AccordionItem) (p : Page) :
  hydrated p = false →
  sections p = (fun _ => unmounted) <$> items →
  mount items p =
  let reconciled :=
    list_to_set (id <$> List.filter (storedOrDefault (sessionStorage p)) items) in
  {| hydrated := true;
     expandedSectionIds := reconciled;
     sessionStorage := sessionStorage p;
     sections := settledSections items reconciled |}.
Proof.
  intros Hh Hs. unfold mount. rewrite Hh.
  rewrite commitSections_fresh by done.
  unfold reconcileEffect at 2. cbn.
  rewrite (commitSections_settled _ (expandedSectionIds p)) by done.
  reflexivity.
Qed.
End accordion_commits.

(** ** Steps of the Accordion component *)

Section accordion_steps.
Import React Accordion.

Lemma controls_absent (items : list AccordionItem) (p : Page) :
  hydrated p = false → renderControls items p = None.
Proof. intros Hh. unfold renderControls, AccordionControls. by rewrite Hh. Qed.

Lemma controls_onClick (items : list AccordionItem) (p : Page) :
  hydrated p = true →
  (renderControls items p ≫= descend showAllPath) ≫= onClickOf =
  Some CallHandleShowAllClick.
Proof. intros Hh. unfold renderControls, AccordionControls. by rewrite Hh. Qed.

Lemma heading_static (p : Page) (item : AccordionItem) :
  hydrated p = false →
  descend headingPath (renderSection p item) ≫= onClickOf = None.
Proof.
  intros Hh. unfold renderSection, AccordionSection, AccordionHeadingButton.
  by rewrite Hh.
Qed.

Lemma heading_onClick (p : Page) (item : AccordionItem) :
  hydrated p = true →
  descend headingPath (renderSection p item) ≫= onClickOf =
  Some (CallSetSectionExpandedState (id item)
          (negb (bool_decide (id item ∈ expandedSectionIds p)))).
Proof.
  intros Hh. unfold renderSection, AccordionSection, AccordionHeadingButton.
  by rewrite Hh.
Qed.

Lemma step_ClickShowAll (items : list AccordionItem) (p : Page) :
  hydrated p = true →
  step items p ClickShowAll = Some (commitSections items (handleShowAllClick items p)).
Proof. intros Hh. unfold step, click. by rewrite controls_onClick. Qed.

Lemma step_ClickHeading (items : list AccordionItem) (p : Page) (index : nat) :
  hydrated p = true →
  step items p (ClickHeading index) =
  item ← items !! index;
  Some (commitSections items
          (setSectionExpandedState (id item)
             (negb (bool_decide (id item ∈ expandedSectionIds p))) p)).
Proof.
  intros Hh. unfold step, click, renderSections. rewrite list_lookup_fmap.
  destruct (items !! index) as [item|]; [|done].
  cbn [fmap option_fmap option_map mbind option_bind].
  by rewrite heading_onClick.
Qed.

Lemma step_BeforeMatch (items : list AccordionItem) (p : Page) (index : nat) :
  sections p = settledSections items (expandedSectionIds p) →
  step items p (BeforeMatch index) =
  item ← items !! index;
  if bool_decide (id item ∈ expandedSectionIds p) then None
  else
    let p' := setSectionExpandedState (id item) true p in
    Some (setSections (settledSections items (expandedSectionIds p')) p').
Proof.
  intros Hs. unfold step, beforematch. rewrite Hs. unfold settledSections at 1.
  rewrite list_lookup_fmap.
  destruct (items !! index) as [item|] eqn:Hitem; [|done].
  cbn [fmap option_fmap option_map mbind option_bind settled].
  rewrite settledElement_revealable, settledElement_listeners.
  destruct (bool_decide (id item ∈ expandedSectionIds p)) eqn:Hin; [done|].
  cbn [negb foldl runCallback]. f_equal.
  apply bool_decide_eq_false in Hin.
  rewrite (commitSections_revealed items (expandedSectionIds p) _ index item).
  - reflexivity.
  - done.
  - done.
  - cbn. set_solver.
  - cbn. by rewrite Hs.
Qed.

Lemma step_prerendered (items : list AccordionItem) (p : Page) (ev : Event) :
  hydrated p = false →
  sections p = (fun _ => unmounted) <$> items →
  step items p ev = match ev with Mount => Some (mount items p) | _ => None end.
Proof.
  intros Hh Hs. destruct ev as [| |index|index]; unfold step.
  - by rewrite Hh.
  - unfold click. by rewrite controls_absent.
  - unfold click, renderSections. rewrite list_lookup_fmap.
    destruct (items !! index) as [item|]; [|done].
  cbn [fmap option_fmap option_map mbind option_bind].
    by rewrite heading_static.
  - unfold beforematch. rewrite Hs, list_lookup_fmap.
    by destruct (items !! index).
Qed.
End accordion_steps.

(** ** Invariants of the Accordion component *)

Section accordion_invariant.
Import React Accordion.

Lemma handleShowAllClick_fields (items : list AccordionItem) (p : Page) :
  let e := negb (allExpanded items (expandedSectionIds p)) in
  handleShowAllClick items p =
  {| hydrated := hydrated p;
     expandedSectionIds := if e then sectionIds items else ∅;
     sessionStorage := saveAllSectionExpandedState items e (sessionStorage p);
     sections := sections p |}.
Proof.
  unfold handleShowAllClick.
  by destruct (allExpanded items (expandedSectionIds p)).
Qed.

Lemma elem_of_sectionIds (items : list AccordionItem) (item : AccordionItem) :
  item ∈ items → id item ∈ sectionIds items.
Proof. intros Hin. apply elem_of_list_to_set, list_elem_of_fmap. eauto. Qed.

Lemma toggle_subseteq (items : list AccordionItem) (p : Page) (item : AccordionItem)
    (e : bool) :
  item ∈ items →
  expandedSectionIds p ⊆ sectionIds items →
  expandedSectionIds (setSectionExpandedState (id item) e p) ⊆ sectionIds items.
Proof.
  intros Hin Hsub. apply elem_of_sectionIds in Hin.
  cbn. destruct e.
  - apply union_subseteq. split; [by apply singleton_subseteq_l|done].
  - intros x [Hx _]%elem_of_difference. by apply Hsub.
Qed.

Lemma showAll_subseteq (items : list AccordionItem) (p : Page) :
  expandedSectionIds (handleShowAllClick items p) ⊆ sectionIds items.
Proof.
  rewrite handleShowAllClick_fields. cbn.
  destruct (negb _); set_solver.
Qed.

Lemma mount_interactive (items : list AccordionItem) (p : Page) :
  prerendered items p → interactive items (mount items p).
Proof.
  intros (Hh & Hs & _). rewrite mount_prerendered by done.
  split; [done|]. split; [done|]. apply reconciled_subseteq.
Qed.

Lemma interactive_step (items : list AccordionItem) (p p' : Page) (ev : Event) :
  interactive items p → step items p ev = Some p' → interactive items p'.
Proof.
  intros (Hh & Hs & Hsub) Hstep. destruct ev as [| |index|index].
  - unfold step in Hstep. by rewrite Hh in Hstep.
  - rewrite step_ClickShowAll in Hstep by done. injection Hstep as <-.
    rewrite (commitSections_settled items (expandedSectionIds p))
      by by rewrite handleShowAllClick_fields.
    split; [by rewrite handleShowAllClick_fields|]. split; [done|].
    apply showAll_subseteq.
  - rewrite step_ClickHeading in Hstep by done.
    destruct (items !! index) as [item|] eqn:Hitem; [|done].
    injection Hstep as <-.
    rewrite (commitSections_settled items (expandedSectionIds p)) by done.
    split; [done|]. split; [done|].
    apply toggle_subseteq; [|done]. by eapply list_elem_of_lookup_2.
  - rewrite step_BeforeMatch in Hstep by done.
    destruct (items !! index) as [item|] eqn:Hitem; [|done]. cbn in Hstep.
    destruct (bool_decide _); [done|]. injection Hstep as <-.
    split; [done|]. split; [done|].
    apply (toggle_subseteq items p item true); [|done].
    by eapply list_elem_of_lookup_2.
Qed.

Lemma interactive_run (items : list AccordionItem) (evs : list Event) (p p' : Page) :
  interactive items p → run items p evs = Some p' → interactive items p'.
Proof.
  revert p. induction evs as [|ev evs IH]; intros p Hp Hrun; cbn in Hrun.
  - by injection Hrun as <-.
  - destruct (step items p ev) as [p1|] eqn:Hstep; [|done].
    eapply IH; [|done]. by eapply interactive_step.
Qed.

(** A session is either still at its first render or interactive. *)
Lemma prerendered_run (items : list AccordionItem) (evs : list Event) (p p' : Page) :
  prerendered items p →
  run items p evs = Some p' →
  (evs = [] ∧ p' = p) ∨
  (∃ evs', evs = Mount :: evs' ∧ run items (mount items p) evs' = Some p' ∧
           interactive items p').
Proof.
  intros Hp Hrun. destruct evs as [|ev evs]; cbn in Hrun.
  - left. by injection Hrun as <-.
  - right. destruct Hp as (Hh & Hs & Hsub).
    rewrite step_prerendered in Hrun by done.
    destruct ev; try done.
    exists evs. split; [done|]. split; [done|].
    eapply interactive_run; [|done]. by apply mount_interactive.
Qed.

Lemma init_prerendered (items : list AccordionItem) (storage : gmap string string) :
  prerendered items (init items storage).
Proof. split; [done|]. split; [done|]. cbn. set_solver. Qed.
End accordion_invariant.

(** ** Accordion2 runs like Accordion on the items its children present *)

Section accordion2_simulation.
Import React.

Lemma filter_fmap {A B} (f : B → bool) (g : A → B) (l : list A) :
  List.filter f (g <$> l) = g <$> List.filter (fun x => f (g x)) l.
Proof.
  induction l as [|x l IH]; [done|]. cbn.
  destruct (f (g x)); cbn; by rewrite IH.
Qed.

Lemma foldl_fmap {A B C} (f : C → B → C) (g : A → B) (c : C) (l : list A) :
  foldl f c (g <$> l) = foldl (fun c x => f c (g x)) c l.
Proof. revert c. induction l as [|x l IH]; intros c; [done|]. cbn. by rewrite IH. Qed.

Lemma forallb_fmap {A B} (f : B → bool) (g : A → B) (l : list A) :
  forallb f (g <$> l) = forallb (fun x => f (g x)) l.
Proof. induction l as [|x l IH]; [done|]. cbn. by rewrite IH. Qed.

Lemma toItems_ids (children : list Accordion2.ReactNode) :
  Accordion.id <$> Accordion2.toItems children =
  Accordion2.id <$> Accordion2.validChildren children.
Proof. unfold Accordion2.toItems. by rewrite <- list_fmap_compose. Qed.



Lemma sim_reconciled (children : list Accordion2.ReactNode)
    (storage : gmap string string) :
  Accordion2.id <$>
    List.filter (Accordion2.storedOrDefault storage) (Accordion2.validChildren children) =
  Accordion.id <$>
    List.filter (Accordion.storedOrDefault storage) (Accordion2.toItems children).
Proof.
  unfold Accordion2.toItems. by rewrite filter_fmap, <- list_fmap_compose.
Qed.

Lemma sim_reconcileEffect (children : list Accordion2.ReactNode) (h : bool) (p : Page) :
  Accordion2.reconcileEffect children h p =
  Accordion.reconcileEffect (Accordion2.toItems children) h p.
Proof.
  unfold Accordion2.reconcileEffect, Accordion.reconcileEffect.
  by rewrite sim_reconciled.
Qed.

Lemma sim_saveAll (children : list Accordion2.ReactNode) (e : bool)
    (storage : gmap string string) :
  Accordion2.saveAllSectionExpandedState children e storage =
  Accordion.saveAllSectionExpandedState (Accordion2.toItems children) e storage.
Proof.
  unfold Accordion2.saveAllSectionExpandedState, Accordion.saveAllSectionExpandedState,
    Accordion2.toItems.
  by rewrite foldl_fmap.
Qed.

Lemma sim_allExpanded (children : list Accordion2.ReactNode) (s : gset string) :
  Accordion2.allExpanded children s = Accordion.allExpanded (Accordion2.toItems children) s.
Proof.
  unfold Accordion2.allExpanded, Accordion.allExpanded, Accordion2.toItems.
  by rewrite forallb_fmap.
Qed.

Lemma sim_handleShowAllClick (children : list Accordion2.ReactNode) (p : Page) :
  Accordion2.handleShowAllClick children p =
  Accordion.handleShowAllClick (Accordion2.toItems children) p.
Proof.
  unfold Accordion2.handleShowAllClick, Accordion.handleShowAllClick.
  rewrite sim_allExpanded, toItems_ids.
  destruct (Accordion.allExpanded _ _); cbn;
    unfold writeStorage, setExpandedSectionIds; cbn; by rewrite sim_saveAll.
Qed.

Lemma sim_runCallback (children : list Accordion2.ReactNode) (c : Callback) (p : Page) :
  Accordion2.runCallback children c p =
  Accordion.runCallback (Accordion2.toItems children) c p.
Proof. destruct c; cbn; [done|]. apply sim_handleShowAllClick. Qed.

Lemma sim_listeners (children : list Accordion2.ReactNode) (l : list Callback)
    (p : Page) :
  foldl (fun p c => Accordion2.runCallback children c p) p l =
  foldl (fun p c => Accordion.runCallback (Accordion2.toItems children) c p) p l.
Proof.
  revert p. induction l as [|c l IH]; intros p; [done|]. cbn.
  by rewrite sim_runCallback, IH.
Qed.

Lemma sim_attachRefs (children : list Accordion2.ReactNode) (p : Page) :
  Accordion2.attachRefs children p = Accordion.attachRefs (Accordion2.toItems children) p.
Proof.
  unfold Accordion2.attachRefs, Accordion.attachRefs, Accordion2.toItems.
  by rewrite zip_with_fmap_l.
Qed.

Lemma sim_commitSections (children : list Accordion2.ReactNode) (p : Page) :
  Accordion2.commitSections children p =
  Accordion.commitSections (Accordion2.toItems children) p.
Proof.
  unfold Accordion2.commitSections, Accordion.commitSections, Accordion2.toItems.
  by rewrite zip_with_fmap_l.
Qed.

Lemma sim_mount (children : list Accordion2.ReactNode) (p : Page) :
  Accordion2.mount children p = Accordion.mount (Accordion2.toItems children) p.
Proof.
  unfold Accordion2.mount, Accordion.mount.
  by rewrite !sim_reconcileEffect, !sim_commitSections, sim_attachRefs.
Qed.

Lemma sim_controls (children : list Accordion2.ReactNode) (p : Page) :
  (Accordion2.renderControls children p ≫= descend Accordion2.showAllPath) ≫= onClickOf =
  (Accordion.renderControls (Accordion2.toItems children) p
     ≫= descend Accordion.showAllPath) ≫= onClickOf.
Proof.
  unfold Accordion2.renderControls, Accordion.renderControls, Accordion.AccordionControls.
  by destruct (hydrated p).
Qed.

Lemma sim_heading (children : list Accordion2.ReactNode) (p : Page) (index : nat) :
  (Accordion2.renderSections children p !! index
     ≫= descend Accordion2.headingPath) ≫= onClickOf =
  (Accordion.renderSections (Accordion2.toItems children) p !! index
     ≫= descend Accordion.headingPath) ≫= onClickOf.
Proof.
  unfold Accordion2.renderSections, Accordion.renderSections, Accordion2.toItems.
  rewrite !list_lookup_fmap.
  destruct (Accordion2.validChildren children !! index) as [props|]; [|done].
  cbn [fmap option_fmap option_map mbind option_bind].
  unfold Accordion2.renderSection, Accordion2.Accordion2Item,
    Accordion2.AccordionHeadingButton, Accordion.renderSection,
    Accordion.AccordionSection, Accordion.AccordionHeadingButton.
  cbn. by destruct (hydrated p).
Qed.

Lemma sim_step (children : list Accordion2.ReactNode) (p : Page) (ev : Event) :
  Accordion2.step children p ev = Accordion.step (Accordion2.toItems children) p ev.
Proof.
  destruct ev as [| |index|index]; unfold Accordion2.step, Accordion.step.
  - by rewrite sim_mount.
  - unfold Accordion2.click, Accordion.click. rewrite sim_controls.
    destruct (_ ≫= onClickOf); [|done].
    by rewrite sim_runCallback, sim_commitSections.
  - unfold Accordion2.click, Accordion.click. rewrite sim_heading.
    destruct (_ ≫= onClickOf); [|done].
    by rewrite sim_runCallback, sim_commitSections.
  - unfold Accordion2.beforematch, Accordion.beforematch.
    destruct (sections p !! index) as [[[element|] deps c]|]; [|done|done].
    destruct (revealable element); [|done].
    by rewrite sim_commitSections, sim_listeners.
Qed.

Lemma sim_run (children : list Accordion2.ReactNode) (evs : list Event) (p : Page) :
  Accordion2.run children p evs = Accordion.run (Accordion2.toItems children) p evs.
Proof.
  revert p. induction evs as [|ev evs IH]; intros p; [done|]. cbn.
  rewrite sim_step. by destruct (Accordion.step _ p ev).
Qed.

Lemma sim_init_prerendered (children : list Accordion2.ReactNode)
    (storage : gmap string string) :
  Accordion.prerendered (Accordion2.toItems children) (Accordion2.init children storage).
Proof.
  split; [done|]. split.
  - cbn. unfold Accordion2.toItems. by rewrite <- list_fmap_compose.
  - cbn. unfold Accordion2.initialExpandedSectionIds, Accordion.sectionIds.
    rewrite toItems_ids. intros x Hx.
    apply elem_of_list_to_set, list_elem_of_fmap in Hx. destruct Hx as (props & -> & Hin).
    apply list_elem_of_In, filter_In in Hin. destruct Hin as [Hin _].
    apply elem_of_list_to_set, list_elem_of_fmap. exists props.
    by rewrite list_elem_of_In.
Qed.
End accordion2_simulation.

(** ** The first commit, from the first render *)

Section first_mount.
Import React.

Lemma NoDup_fmap_eq {A B} (f : A → B) (l : list A) (x y : A) :
  NoDup (f <$> l) → x ∈ l → y ∈ l → f x = f y → x = y.
Proof.
  induction l as [|a l IH]; intros Hnd Hx Hy Hf; [by apply elem_of_nil in Hx|].
  rewrite fmap_cons in Hnd. apply NoDup_cons in Hnd. destruct Hnd as [Ha Hnd].
  apply elem_of_cons in Hx. apply elem_of_cons in Hy.
  destruct Hx as [->|Hx], Hy as [->|Hy].
  - done.
  - exfalso. apply Ha. rewrite Hf. apply list_elem_of_fmap. eauto.
  - exfalso. apply Ha. rewrite <- Hf. apply list_elem_of_fmap. eauto.
  - by apply IH.
Qed.

Lemma step_Mount_init (items : list Accordion.AccordionItem)
    (storage : gmap string string) :
  Accordion.step items (Accordion.init items storage) Mount =
  let reconciled :=
    list_to_set
      (Accordion.id <$> List.filter (Accordion.storedOrDefault storage) items) in
  Some {| hydrated := true;
          expandedSectionIds := reconciled;
          sessionStorage := storage;
          sections := Accordion.settledSections items reconciled |}.
Proof.
  unfold Accordion.step. cbn [hydrated Accordion.init].
  by rewrite mount_prerendered.
Qed.

Lemma step_Mount_init2 (children : list Accordion2.ReactNode)
    (storage : gmap string string) :
  Accordion2.step children (Accordion2.init children storage) Mount =
  let reconciled :=
    list_to_set
      (Accordion.id <$>
         List.filter (Accordion.storedOrDefault storage) (Accordion2.toItems children)) in
  Some {| hydrated := true;
          expandedSectionIds := reconciled;
          sessionStorage := storage;
          sections := Accordion.settledSections (Accordion2.toItems children) reconciled |}.
Proof.
  rewrite sim_step. unfold Accordion.step. cbn [hydrated Accordion2.init].
  destruct (sim_init_prerendered children storage) as (Hh & Hs & _).
  by rewrite mount_prerendered.
Qed.

(** Membership in the reconciled set follows the stored flag, and the hint
    of the sections with that id when there is no flag. *)
Lemma reconciled_stored (items : list Accordion.AccordionItem)
    (storage : gmap string string) (item : Accordion.AccordionItem) (v : string) :
  item ∈ items →
  SessionStorage.getItem storage (storageKey (Accordion.id item)) = Some v →
  Accordion.id item ∈@{gset string}
    list_to_set (Accordion.id <$> List.filter (Accordion.storedOrDefault storage) items)
  ↔ v = "1".
Proof.
  intros Hin Hv. rewrite elem_of_reconciled. split.
  - intros (item' & _ & Hid & Hkeep). unfold Accordion.storedOrDefault in Hkeep.
    rewrite Hid, Hv in Hkeep. by apply bool_decide_eq_true in Hkeep.
  - intros ->. exists item. split; [done|]. split; [done|].
    unfold Accordion.storedOrDefault. by rewrite Hv.
Qed.

Lemma reconciled_unflagged (items : list Accordion.AccordionItem)
    (storage : gmap string string) (sectionId : string) :
  SessionStorage.getItem storage (storageKey sectionId) = None →
  sectionId ∈@{gset string}
    list_to_set (Accordion.id <$> List.filter (Accordion.storedOrDefault storage) items)
  ↔ ∃ item, item ∈ items ∧ Accordion.id item = sectionId ∧
            Accordion.defaultExpanded item = Some true.
Proof.
  intros Hnone. rewrite elem_of_reconciled.
  split; intros (item & Hin & Hid & H); exists item; (split; [done|]);
    (split; [done|]); unfold Accordion.storedOrDefault in *;
    rewrite Hid, Hnone in *.
  - by destruct (Accordion.defaultExpanded item) as [[]|].
  - by rewrite H.
Qed.

Lemma reconciled_hinted (items : list Accordion.AccordionItem)
    (storage : gmap string string) (item : Accordion.AccordionItem) :
  NoDup (Accordion.id <$> items) →
  item ∈ items →
  SessionStorage.getItem storage (storageKey (Accordion.id item)) = None →
  Accordion.id item ∈@{gset string}
    list_to_set (Accordion.id <$> List.filter (Accordion.storedOrDefault storage) items)
  ↔ Accordion.defaultExpanded item = Some true.
Proof.
  intros Hnd Hin Hnone. rewrite elem_of_reconciled. split.
  - intros (item' & Hin' & Hid & Hkeep).
    assert (item' = item) as -> by by eapply NoDup_fmap_eq.
    unfold Accordion.storedOrDefault in Hkeep. rewrite Hnone in Hkeep.
    by destruct (Accordion.defaultExpanded item) as [[]|].
  - intros Hhint. exists item. split; [done|]. split; [done|].
    unfold Accordion.storedOrDefault. by rewrite Hnone, Hhint.
Qed.

Lemma reconciled_storedOrHinted (items : list Accordion.AccordionItem)
    (storage : gmap string string) (item : Accordion.AccordionItem) :
  NoDup (Accordion.id <$> items) →
  item ∈ items →
  Accordion.id item ∈@{gset string}
    list_to_set (Accordion.id <$> List.filter (Accordion.storedOrDefault storage) items)
  ↔ storedOrHinted storage (Accordion.id item) (Accordion.defaultExpanded item).
Proof.
  intros Hnd Hin. unfold storedOrHinted.
  destruct (SessionStorage.getItem storage (storageKey (Accordion.id item)))
    as [v|] eqn:Hv.
  - rewrite (reconciled_stored items storage item v) by done. split.
    + intros ->. by left.
    + intros [[= ->]|[? _]]; done.
  - rewrite reconciled_hinted by done. split.
    + intros Hhint. by right.
    + intros [?|[_ Hhint]]; done.
Qed.

Lemma toItem_elem_of (children : list Accordion2.ReactNode)
    (props : Accordion2.AccordionItemProps) :
  props ∈ Accordion2.validChildren children →
  Accordion2.toItem props ∈ Accordion2.toItems children.
Proof. intros Hin. apply list_elem_of_fmap. eauto. Qed.
End first_mount.

(** ** Reachable pages *)

Section reachable_pages.
Import React.

Lemma reachable_cases (items : list Accordion.AccordionItem) (p : Page) :
  Accordion.reachable items p →
  (∃ storage, p = Accordion.init items storage) ∨ Accordion.interactive items p.
Proof.
  intros (storage & evs & Hrun).
  destruct (prerendered_run items evs _ p (init_prerendered items storage) Hrun)
    as [[_ ->]|(_ & _ & _ & Hi)]; [left; by exists storage|by right].
Qed.

Lemma reachable2_cases (children : list Accordion2.ReactNode) (p : Page) :
  Accordion2.reachable children p →
  (∃ storage, p = Accordion2.init children storage) ∨
  Accordion.interactive (Accordion2.toItems children) p.
Proof.
  intros (storage & evs & Hrun). rewrite sim_run in Hrun.
  destruct (prerendered_run _ evs _ p (sim_init_prerendered children storage) Hrun)
    as [[_ ->]|(_ & _ & _ & Hi)]; [left; by exists storage|by right].
Qed.

Lemma reachable_hydrated (items : list Accordion.AccordionItem) (p : Page) :
  Accordion.reachable items p → hydrated p = true → Accordion.interactive items p.
Proof. intros [[storage ->]|Hi]%reachable_cases Hh; [done|done]. Qed.

Lemma reachable2_hydrated (children : list Accordion2.ReactNode) (p : Page) :
  Accordion2.reachable children p → hydrated p = true →
  Accordion.interactive (Accordion2.toItems children) p.
Proof. intros [[storage ->]|Hi]%reachable2_cases Hh; [done|done]. Qed.

End reachable_pages.

(** * The claims *)

(** ** Toggling one section *)


(** C7.  Toggling one section leaves every other section alone: for
    distinct ids [id1] and [id2], [setSectionExpandedState(id1, e)] (in
    Accordion2: [setSectionState]) changes neither [id2]'s membership in the
    in-memory expanded set nor [id2]'s storage flag. *)
Theorem toggle_preserves_other_sections (id1 id2 : string) (e : bool) (p : Page) :
  id1 ≠ id2 →
  let p1 := Accordion.setSectionExpandedState id1 e p in
  let p2 := Accordion2.setSectionState id1 e p in
  ((id2 ∈ expandedSectionIds p1 ↔ id2 ∈ expandedSectionIds p) ∧
   SessionStorage.getItem (sessionStorage p1) (storageKey id2) =
     SessionStorage.getItem (sessionStorage p) (storageKey id2)) ∧
  ((id2 ∈ expandedSectionIds p2 ↔ id2 ∈ expandedSectionIds p) ∧
   SessionStorage.getItem (sessionStorage p2) (storageKey id2) =
     SessionStorage.getItem (sessionStorage p) (storageKey id2)).
Proof.
  intros Hne.
  assert (∀ s : gset string,
    id2 ∈ (if e then {[id1]} ∪ s else s ∖ {[id1]}) ↔ id2 ∈ s) as Hset.
  { intros s. destruct e.
    - rewrite elem_of_union, elem_of_singleton.
      split; [intros [Heq|Hin]; [by destruct Hne|done]|by right].
    - rewrite elem_of_difference, elem_of_singleton.
      split; [by intros [Hin _]|]. intros Hin. split; [done|]. intros Heq. by apply Hne. }
  assert (storageKey id1 ≠ storageKey id2) as Hkey.
  { intros Heq. by apply Hne, storageKey_inj. }
  cbn. unfold SessionStorage.getItem, Accordion.saveSectionExpandedState,
    Accordion2.saveSectionExpandedState, SessionStorage.setItem.
  rewrite !lookup_insert_ne by done. by repeat split; try apply Hset.
Qed.

Lemma toggle_preserves_other_sections_witness :
  "intro" ≠ "details" ∧
  (let p1 := Accordion.setSectionExpandedState "intro" false Demo.mounted in
   let p2 := Accordion2.setSectionState "intro" false Demo.mounted in
   (("details" ∈ expandedSectionIds p1 ↔ "details" ∈ expandedSectionIds Demo.mounted) ∧
    SessionStorage.getItem (sessionStorage p1) (storageKey "details") =
      SessionStorage.getItem (sessionStorage Demo.mounted) (storageKey "details")) ∧
   (("details" ∈ expandedSectionIds p2 ↔ "details" ∈ expandedSectionIds Demo.mounted) ∧
    SessionStorage.getItem (sessionStorage p2) (storageKey "details") =
      SessionStorage.getItem (sessionStorage Demo.mounted) (storageKey "details"))).
Proof.
  assert ("intro" ≠ "details") as Hne by (intros H; discriminate H).
  split; [exact Hne|].
  exact (toggle_preserves_other_sections "intro" "details" false Demo.mounted Hne).
Defined.

(** ** Reconciliation with session storage *)

(** C2.  On the first interactive mount the reconciled set of expanded ids
    contains a section's id if and only if the flag
    [moduk.accordion.<id>.expanded] is present and equal to ["1"], or the
    flag is absent and the section's [defaultExpanded] hint is true; a flag
    that is present, whatever its value, overrides the hint.  The set is
    keyed by id, so "the section's hint" presupposes that ids identify
    sections (they are React keys and DOM ids); the statement also says what
    an absent flag means for an id that several sections share. *)
Theorem reconciled_on_first_mount
    (items : list Accordion.AccordionItem) (item : Accordion.AccordionItem)
    (children : list Accordion2.ReactNode) (props : Accordion2.AccordionItemProps)
    (storage : gmap string string) :
  item ∈ items →
  props ∈ Accordion2.validChildren children →
  (∃ p, Accordion.step items (Accordion.init items storage) Mount = Some p ∧
     (∀ v, SessionStorage.getItem storage (storageKey (Accordion.id item)) = Some v →
           (Accordion.id item ∈ expandedSectionIds p ↔ v = "1")) ∧
     (SessionStorage.getItem storage (storageKey (Accordion.id item)) = None →
      (Accordion.id item ∈ expandedSectionIds p ↔
       ∃ item', item' ∈ items ∧ Accordion.id item' = Accordion.id item ∧
                Accordion.defaultExpanded item' = Some true)) ∧
     (NoDup (Accordion.id <$> items) →
      (Accordion.id item ∈ expandedSectionIds p ↔
       storedOrHinted storage (Accordion.id item) (Accordion.defaultExpanded item)))) ∧
  (∃ p, Accordion2.step children (Accordion2.init children storage) Mount = Some p ∧
     (∀ v, SessionStorage.getItem storage (storageKey (Accordion2.id props)) = Some v →
           (Accordion2.id props ∈ expandedSectionIds p ↔ v = "1")) ∧
     (SessionStorage.getItem storage (storageKey (Accordion2.id props)) = None →
      (Accordion2.id props ∈ expandedSectionIds p ↔
       ∃ props', props' ∈ Accordion2.validChildren children ∧
                 Accordion2.id props' = Accordion2.id props ∧
                 Accordion2.defaultExpanded props' = Some true)) ∧
     (NoDup (Accordion2.id <$> Accordion2.validChildren children) →
      (Accordion2.id props ∈ expandedSectionIds p ↔
       storedOrHinted storage (Accordion2.id props) (Accordion2.defaultExpanded props)))).
Proof.
  intros Hin Hin2. split.
  - eexists. split; [apply step_Mount_init|]. cbn. split; [|split].
    + intros v Hv. by apply reconciled_stored.
    + intros Hnone. by apply reconciled_unflagged.
    + intros Hnd. by apply reconciled_storedOrHinted.
  - eexists. split; [apply step_Mount_init2|]. cbn.
    apply toItem_elem_of in Hin2. split; [|split].
    + intros v Hv. by apply (reconciled_stored _ storage (Accordion2.toItem props)).
    + intros Hnone.
      rewrite (reconciled_unflagged _ storage (Accordion2.id props)) by done.
      unfold Accordion2.toItems. split.
      * intros (item' & (props' & -> & Hin')%list_elem_of_fmap & Hid & Hhint).
        by exists props'.
      * intros (props' & Hin' & Hid & Hhint). exists (Accordion2.toItem props').
        split; [|done]. apply list_elem_of_fmap. eauto.
    + intros Hnd. rewrite <- toItems_ids in Hnd.
      by apply (reconciled_storedOrHinted _ storage (Accordion2.toItem props)).
Qed.

Lemma reconciled_on_first_mount_witness :
  let storage : gmap string string := {[storageKey "details" := "1"]} in
  Demo.intro ∈ Demo.items ∧
  Demo.introProps ∈ Accordion2.validChildren Demo.children ∧
  NoDup (Accordion.id <$> Demo.items) ∧
  NoDup (Accordion2.id <$> Accordion2.validChildren Demo.children) ∧
  (∃ p, Accordion.step Demo.items (Accordion.init Demo.items storage) Mount = Some p ∧
        (Accordion.id Demo.intro ∈ expandedSectionIds p ↔
         storedOrHinted storage (Accordion.id Demo.intro)
           (Accordion.defaultExpanded Demo.intro))) ∧
  (∃ p, Accordion2.step Demo.children (Accordion2.init Demo.children storage) Mount
          = Some p ∧
        (Accordion2.id Demo.introProps ∈ expandedSectionIds p ↔
         storedOrHinted storage (Accordion2.id Demo.introProps)
           (Accordion2.defaultExpanded Demo.introProps))).
Proof.
  intros storage.
  assert (Demo.intro ∈ Demo.items) as H1 by apply list_elem_of_here.
  assert (Demo.introProps ∈ Accordion2.validChildren Demo.children) as H2
    by apply list_elem_of_here.
  assert (NoDup (Accordion.id <$> Demo.items)) as Hnd1
    by (apply (bool_decide_unpack _); vm_compute; exact I).
  assert (NoDup (Accordion2.id <$> Accordion2.validChildren Demo.children)) as Hnd2
    by (apply (bool_decide_unpack _); vm_compute; exact I).
  repeat (split; [assumption|]).
  destruct (reconciled_on_first_mount Demo.items Demo.intro Demo.children Demo.introProps
              storage H1 H2)
    as [(p1 & Hstep1 & _ & _ & Hiff1) (p2 & Hstep2 & _ & _ & Hiff2)].
  split; [exists p1|exists p2]; (split; [assumption|]); auto.
Defined.

(** C4.  Expanded/collapsed state survives a page reload: when a toggle has
    set a section to [e] (writing its storage flag) and the page is loaded
    afresh on the same session storage, the first-mount reconciliation
    leaves the section expanded exactly when [e] is true, whatever its
    [defaultExpanded] hint says. *)
Theorem toggle_survives_reload
    (items : list Accordion.AccordionItem) (item : Accordion.AccordionItem)
    (children : list Accordion2.ReactNode) (props : Accordion2.AccordionItemProps)
    (e : bool) (p : Page) :
  item ∈ items →
  props ∈ Accordion2.validChildren children →
  (let stored := sessionStorage (Accordion.setSectionExpandedState (Accordion.id item) e p) in
   ∃ p', Accordion.step items (Accordion.init items stored) Mount = Some p' ∧
         (Accordion.id item ∈ expandedSectionIds p' ↔ e = true)) ∧
  (let stored := sessionStorage (Accordion2.setSectionState (Accordion2.id props) e p) in
   ∃ p', Accordion2.step children (Accordion2.init children stored) Mount = Some p' ∧
         (Accordion2.id props ∈ expandedSectionIds p' ↔ e = true)).
Proof.
  intros Hin Hin2.
  assert (∀ sectionId, SessionStorage.getItem
            (Accordion.saveSectionExpandedState sectionId e (sessionStorage p))
            (storageKey sectionId) = Some (flag e)) as Hflag.
  { intros sectionId. apply lookup_insert_eq. }
  assert (flag e = "1" ↔ e = true) as He by by destruct e.
  split; cbn zeta.
  - eexists. split; [apply step_Mount_init|]. cbn.
    rewrite (reconciled_stored items _ item (flag e)); [done|done|apply Hflag].
  - eexists. split; [apply step_Mount_init2|]. cbn.
    apply toItem_elem_of in Hin2.
    rewrite (reconciled_stored _ _ (Accordion2.toItem props) (flag e));
      [done|done|apply Hflag].
Qed.

Lemma toggle_survives_reload_witness :
  Demo.intro ∈ Demo.items ∧
  Demo.introProps ∈ Accordion2.validChildren Demo.children ∧
  (let stored :=
     sessionStorage (Accordion.setSectionExpandedState "intro" false Demo.mounted) in
   ∃ p', Accordion.step Demo.items (Accordion.init Demo.items stored) Mount = Some p' ∧
         ("intro" ∈ expandedSectionIds p' ↔ false = true)) ∧
  (let stored :=
     sessionStorage (Accordion2.setSectionState "intro" false Demo.mounted2) in
   ∃ p', Accordion2.step Demo.children (Accordion2.init Demo.children stored) Mount
           = Some p' ∧
         ("intro" ∈ expandedSectionIds p' ↔ false = true)).
Proof.
  assert (Demo.intro ∈ Demo.items) as H1 by apply list_elem_of_here.
  assert (Demo.introProps ∈ Accordion2.validChildren Demo.children) as H2
    by apply list_elem_of_here.
  split; [exact H1|]. split; [exact H2|].
  split.
  - exact (proj1 (toggle_survives_reload Demo.items Demo.intro Demo.children
                    Demo.introProps false Demo.mounted H1 H2)).
  - exact (proj2 (toggle_survives_reload Demo.items Demo.intro Demo.children
                    Demo.introProps false Demo.mounted2 H1 H2)).
Defined.

(** ** Rendering *)

(** C5.  Rendering is gated on hydration.  While [hydrated] is false every
    section heading renders as a static span without click handler and the
    show-all controls are not rendered; once [hydrated] is true every
    heading renders as a toggle button whose [aria-expanded] is the
    section's membership in the expanded set (and the controls appear). *)
Theorem rendering_gated_on_hydration
    (items : list Accordion.AccordionItem) (index : nat) (item : Accordion.AccordionItem)
    (children : list Accordion2.ReactNode) (index2 : nat)
    (props : Accordion2.AccordionItemProps) (p : Page) :
  items !! index = Some item →
  children !! index2 = Some (Accordion2.ItemElement props) →
  (React.childrenOf (Accordion.render items p) =
     (option_list (Accordion.renderControls items p) ++
      Accordion.renderSections items p)%list ∧
   Accordion.renderSections items p !! index = Some (Accordion.renderSection p item) ∧
   (hydrated p = false →
    Accordion.renderControls items p = None ∧
    ∃ h, React.descend Accordion.headingPath (Accordion.renderSection p item) = Some h ∧
         staticHeading h) ∧
   (hydrated p = true →
    is_Some (Accordion.renderControls items p) ∧
    ∃ h, React.descend Accordion.headingPath (Accordion.renderSection p item) = Some h ∧
         toggleButton (Accordion.id item)
           (bool_decide (Accordion.id item ∈ expandedSectionIds p)) h)) ∧
  (React.childrenOf (Accordion2.render children p) =
     (option_list (Accordion2.renderControls children p) ++
      (Accordion2.renderNode p <$> children))%list ∧
   (Accordion2.renderNode p <$> children) !! index2 =
     Some (Accordion2.renderSection p props) ∧
   (hydrated p = false →
    Accordion2.renderControls children p = None ∧
    ∃ h, React.descend Accordion2.headingPath (Accordion2.renderSection p props) = Some h ∧
         staticHeading h) ∧
   (hydrated p = true →
    is_Some (Accordion2.renderControls children p) ∧
    ∃ h, React.descend Accordion2.headingPath (Accordion2.renderSection p props) = Some h ∧
         toggleButton (Accordion2.id props)
           (bool_decide (Accordion2.id props ∈ expandedSectionIds p)) h)).
Proof.
  intros Hitem Hchild. split.
  - split; [done|]. split.
    { unfold Accordion.renderSections. by rewrite list_lookup_fmap, Hitem. }
    unfold Accordion.renderControls, Accordion.AccordionControls,
      Accordion.renderSection, Accordion.AccordionSection,
      Accordion.AccordionHeadingButton.
    split; intros ->; cbn; (split; [done|]); eexists; (split; [reflexivity|]);
      by repeat split.
  - split; [done|]. split.
    { by rewrite list_lookup_fmap, Hchild. }
    unfold Accordion2.renderControls, Accordion2.renderSection,
      Accordion2.Accordion2Item, Accordion2.AccordionHeadingButton, Accordion2.contextOf.
    cbn [Accordion2.contextHydrated Accordion2.contextExpandedSectionIds].
    split; intros ->; cbn; (split; [done|]); eexists; (split; [reflexivity|]);
      by repeat split.
Qed.

Lemma rendering_gated_on_hydration_witness :
  Demo.items !! 1%nat = Some Demo.details ∧
  Demo.children !! 0%nat = Some (Accordion2.ItemElement Demo.introProps) ∧
  React.descend Accordion.headingPath
    (Accordion.renderSection (Accordion.init Demo.items ∅) Demo.details) =
    Some (React.elem "span" "govuk-accordion__section-button"
            [("id", React.AttrString "details-heading")] [React.TextNode "Details"]) ∧
  Accordion.renderControls Demo.items (Accordion.init Demo.items ∅) = None ∧
  (∃ h, React.descend Accordion2.headingPath
          (Accordion2.renderSection Demo.mounted2 Demo.introProps) = Some h ∧
        toggleButton "intro" true h).
Proof.
  assert (Demo.items !! 1%nat = Some Demo.details) as H1 by reflexivity.
  assert (Demo.children !! 0%nat = Some (Accordion2.ItemElement Demo.introProps)) as H2
    by reflexivity.
  split; [exact H1|]. split; [exact H2|].
  split; [reflexivity|].
  split.
  - destruct (rendering_gated_on_hydration Demo.items 1 Demo.details Demo.children 0
                Demo.introProps (Accordion.init Demo.items ∅) H1 H2)
      as [(_ & _ & Hstatic & _) _].
    exact (proj1 (Hstatic eq_refl)).
  - destruct (rendering_gated_on_hydration Demo.items 1 Demo.details Demo.children 0
                Demo.introProps Demo.mounted2 H1 H2)
      as [_ (_ & _ & _ & Hbutton)].
    destruct (Hbutton eq_refl) as [_ (h & Hh & Hb)].
    exists h. split; [exact Hh|].
    replace true with (bool_decide (Accordion2.id Demo.introProps
                                      ∈ expandedSectionIds Demo.mounted2)); [exact Hb|].
    apply bool_decide_eq_true. vm_compute. reflexivity.
Defined.

(** ** Find-in-page *)



(** ** The set of expanded ids *)

(** C10.  In every reachable state of either component (after
    initialisation, after the first-mount reconciliation, and after any
    toggle by a rendered section's button or [beforematch] handler and any
    show-all click) the expanded ids are ids of the sections supplied. *)
Theorem expanded_ids_are_section_ids
    (items : list Accordion.AccordionItem) (children : list Accordion2.ReactNode)
    (p1 p2 : Page) :
  Accordion.reachable items p1 →
  Accordion2.reachable children p2 →
  expandedSectionIds p1 ⊆ list_to_set (Accordion.id <$> items) ∧
  expandedSectionIds p2 ⊆
    list_to_set (Accordion2.id <$> Accordion2.validChildren children).
Proof.
  intros Hr1 Hr2. split.
  - destruct (reachable_cases items p1 Hr1) as [[storage ->]|(_ & _ & Hsub)]; [|done].
    apply (init_prerendered items storage).
  - rewrite <- toItems_ids.
    destruct (reachable2_cases children p2 Hr2) as [[storage ->]|(_ & _ & Hsub)]; [|done].
    apply (sim_init_prerendered children storage).
Qed.

Lemma expanded_ids_are_section_ids_witness :
  Accordion.reachable Demo.items Demo.visited ∧
  Accordion2.reachable Demo.children Demo.visited2 ∧
  expandedSectionIds Demo.visited ⊆ list_to_set (Accordion.id <$> Demo.items) ∧
  expandedSectionIds Demo.visited2 ⊆
    list_to_set (Accordion2.id <$> Accordion2.validChildren Demo.children).
Proof.
  assert (Accordion.reachable Demo.items Demo.visited) as Hr1
    by (exists ∅, Demo.session; vm_compute; reflexivity).
  assert (Accordion2.reachable Demo.children Demo.visited2) as Hr2
    by (exists ∅, Demo.session; vm_compute; reflexivity).
  split; [exact Hr1|]. split; [exact Hr2|].
  exact (expanded_ids_are_section_ids Demo.items Demo.children Demo.visited Demo.visited2
           Hr1 Hr2).
Defined.

Example session_outcome :
  "intro" ∈ expandedSectionIds Demo.visited ∧
  ("details" ∉ expandedSectionIds Demo.visited) ∧
  sessionStorage Demo.visited !! (storageKey "intro") = Some "1" ∧
  sessionStorage Demo.visited !! (storageKey "details") = Some "0" ∧
  Demo.visited2 = Demo.visited.
Proof.
  split; [vm_compute; reflexivity|].
  split; [vm_compute; intros H; discriminate H|].
  split; [vm_compute; reflexivity|].
  split; [vm_compute; reflexivity|].
  vm_compute; reflexivity.
Qed.

(** ** The show-all control *)



(** C9.  With no sections (an empty items array, or no valid children)
    [allExpanded] is vacuously true, so the hydrated show-all control reads
    as "Hide all sections"; clicking it writes nothing to session storage
    and leaves the expanded set empty: the page is unchanged. *)
Theorem show_all_without_sections
    (children : list Accordion2.ReactNode) (p1 p2 : Page) :
  Accordion2.validChildren children = [] →
  Accordion.reachable [] p1 →
  hydrated p1 = true →
  Accordion2.reachable children p2 →
  hydrated p2 = true →
  (Accordion.allExpanded [] (expandedSectionIds p1) = true ∧
   (Accordion.renderControls [] p1 ≫= React.descend Accordion.showAllPath)
     ≫= React.attrOf "aria-expanded" = Some (React.AttrBool true) ∧
   Accordion.renderControls [] p1 ≫= React.descend [0; 1; 0]%nat =
     Some (React.TextNode "Hide") ∧
   expandedSectionIds p1 = ∅ ∧
   (∀ e storage, Accordion.saveAllSectionExpandedState [] e storage = storage) ∧
   Accordion.step [] p1 ClickShowAll = Some p1) ∧
  (Accordion2.allExpanded children (expandedSectionIds p2) = true ∧
   (Accordion2.renderControls children p2 ≫= React.descend Accordion2.showAllPath)
     ≫= React.attrOf "aria-expanded" = Some (React.AttrBool true) ∧
   Accordion2.renderControls children p2 ≫= React.descend [0; 1; 0]%nat =
     Some (React.TextNode "Hide") ∧
   expandedSectionIds p2 = ∅ ∧
   (∀ e storage, Accordion2.saveAllSectionExpandedState children e storage = storage) ∧
   Accordion2.step children p2 ClickShowAll = Some p2).
Proof.
  intros Hvalid Hr1 Hh1 Hr2 Hh2.
  assert (Accordion2.toItems children = []) as Hitems
    by (unfold Accordion2.toItems; by rewrite Hvalid).
  apply reachable_hydrated in Hr1; [|done].
  apply reachable2_hydrated in Hr2; [|done]. rewrite Hitems in Hr2.
  assert (∀ p, Accordion.interactive [] p →
            expandedSectionIds p = ∅ ∧ Accordion.step [] p ClickShowAll = Some p) as Hnone.
  { intros p (Hh & Hs & Hsub).
    assert (expandedSectionIds p = ∅) as Hempty.
    { apply set_eq. intros x. split; [|by intros ?%not_elem_of_empty].
      intros Hx. by apply Hsub in Hx. }
    split; [done|]. rewrite step_ClickShowAll by done. f_equal.
    destruct p as [h s st secs]. cbn in *. by subst. }
  destruct (Hnone p1 Hr1) as [Hempty1 Hstep1].
  destruct (Hnone p2 Hr2) as [Hempty2 Hstep2].
  split.
  - unfold Accordion.renderControls, Accordion.AccordionControls. rewrite Hh1.
    by repeat split.
  - rewrite sim_step, Hitems.
    unfold Accordion2.renderControls, Accordion2.allExpanded,
      Accordion2.saveAllSectionExpandedState.
    rewrite Hh2, Hvalid. by repeat split.
Qed.

Lemma show_all_without_sections_witness :
  let children := [Accordion2.TextChild "no sections yet"] in
  let p1 := Accordion.mount [] (Accordion.init [] ∅) in
  let p2 := Accordion2.mount children (Accordion2.init children ∅) in
  Accordion2.validChildren children = [] ∧
  Accordion.reachable [] p1 ∧
  hydrated p1 = true ∧
  Accordion2.reachable children p2 ∧
  hydrated p2 = true ∧
  Accordion.step [] p1 ClickShowAll = Some p1 ∧
  Accordion2.step children p2 ClickShowAll = Some p2.
Proof.
  intros children p1 p2.
  assert (Accordion2.validChildren children = []) as Hv by reflexivity.
  assert (Accordion.reachable [] p1) as Hr1 by (exists ∅, [Mount]; reflexivity).
  assert (hydrated p1 = true) as Hh1 by reflexivity.
  assert (Accordion2.reachable children p2) as Hr2 by (exists ∅, [Mount]; reflexivity).
  assert (hydrated p2 = true) as Hh2 by reflexivity.
  repeat (split; [assumption|]).
  destruct (show_all_without_sections children p1 p2 Hv Hr1 Hh1 Hr2 Hh2)
    as [(_ & _ & _ & _ & _ & Hs1) (_ & _ & _ & _ & _ & Hs2)].
  split; assumption.
Defined.

(** ** The two components compared *)




(** * Further properties of the components *)

(** ** The expanded set is what the storage would reconcile to *)

Section persistence.
Import React Accordion.






End persistence.



(** ** What a session writes to the storage *)

Section storage_frame.
Import React Accordion.

Lemma onlyFlagsWritten_refl (keys : list string) (storage : gmap string string) :
  onlyFlagsWritten keys storage storage.
Proof. intros k. by left. Qed.

Lemma onlyFlagsWritten_trans (keys : list string) (s1 s2 s3 : gmap string string) :
  onlyFlagsWritten keys s1 s2 → onlyFlagsWritten keys s2 s3 → onlyFlagsWritten keys s1 s3.
Proof.
  intros H12 H23 k. destruct (H23 k) as [Heq|Hflag]; [|by right].
  rewrite Heq. apply H12.
Qed.

Lemma flag_cases (e : bool) : flag e = "0" ∨ flag e = "1".
Proof. destruct e; [by right|by left]. Qed.

Lemma toggle_onlyFlagsWritten (items : list AccordionItem) (item : AccordionItem)
    (e : bool) (storage : gmap string string) :
  item ∈ items →
  onlyFlagsWritten ((fun item => storageKey (id item)) <$> items) storage
    (saveSectionExpandedState (id item) e storage).
Proof.
  intros Hin k. unfold saveSectionExpandedState, SessionStorage.setItem.
  destruct (decide (storageKey (id item) = k)) as [<-|Hne].
  - right. split; [apply list_elem_of_fmap; eauto|].
    rewrite lookup_insert_eq. destruct (flag_cases e) as [->| ->]; [by left|by right].
  - left. by rewrite lookup_insert_ne.
Qed.

Lemma saveAll_onlyFlagsWritten (items : list AccordionItem) (e : bool)
    (storage : gmap string string) :
  onlyFlagsWritten ((fun item => storageKey (id item)) <$> items) storage
    (saveAllSectionExpandedState items e storage).
Proof.
  intros k. rewrite saveAll_lookup.
  destruct (decide (k ∈ (fun item => storageKey (id item)) <$> items)) as [Hin|Hout].
  - right. split; [done|]. destruct (flag_cases e) as [->| ->]; [by left|by right].
  - by left.
Qed.

Lemma step_onlyFlagsWritten (items : list AccordionItem) (p p' : Page) (ev : Event) :
  interactive items p →
  step items p ev = Some p' →
  onlyFlagsWritten ((fun item => storageKey (id item)) <$> items)
    (sessionStorage p) (sessionStorage p').
Proof.
  intros (Hh & Hs & Hsub) Hstep. destruct ev as [| |index|index].
  - unfold step in Hstep. by rewrite Hh in Hstep.
  - rewrite step_ClickShowAll in Hstep by done. injection Hstep as <-.
    rewrite handleShowAllClick_fields. cbn. apply saveAll_onlyFlagsWritten.
  - rewrite step_ClickHeading in Hstep by done.
    destruct (items !! index) as [item|] eqn:Hitem; [|done]. injection Hstep as <-.
    cbn. apply toggle_onlyFlagsWritten. by eapply list_elem_of_lookup_2.
  - rewrite step_BeforeMatch in Hstep by done.
    destruct (items !! index) as [item|] eqn:Hitem; [|done]. cbn in Hstep.
    destruct (bool_decide _); [done|]. injection Hstep as <-.
    cbn. apply toggle_onlyFlagsWritten. by eapply list_elem_of_lookup_2.
Qed.

Lemma run_onlyFlagsWritten (items : list AccordionItem) (evs : list Event) (p p' : Page) :
  interactive items p →
  run items p evs = Some p' →
  onlyFlagsWritten ((fun item => storageKey (id item)) <$> items)
    (sessionStorage p) (sessionStorage p').
Proof.
  revert p. induction evs as [|ev evs IH]; intros p Hi Hrun; cbn in Hrun.
  - injection Hrun as <-. apply onlyFlagsWritten_refl.
  - destruct (step items p ev) as [p1|] eqn:Hstep; [|done].
    eapply onlyFlagsWritten_trans; [by eapply step_onlyFlagsWritten|].
    apply IH; [by eapply interactive_step|done].
Qed.

Lemma prerendered_onlyFlagsWritten (items : list AccordionItem) (evs : list Event)
    (p0 p : Page) :
  prerendered items p0 →
  run items p0 evs = Some p →
  onlyFlagsWritten ((fun item => storageKey (id item)) <$> items)
    (sessionStorage p0) (sessionStorage p).
Proof.
  intros Hp Hrun.
  destruct (prerendered_run items evs p0 p Hp Hrun)
    as [[_ ->]|(evs' & -> & Hrun' & Hi)]; [apply onlyFlagsWritten_refl|].
  destruct Hp as (Hh0 & Hs0 & Hsub0).
  assert (sessionStorage p0 = sessionStorage (mount items p0)) as ->
    by by rewrite mount_prerendered.
  eapply run_onlyFlagsWritten; [|done]. apply mount_interactive. by repeat split.
Qed.
End storage_frame.

(** X2.  A session only ever writes section flags.  Whatever the events,
    every key of the session storage either still holds the value it had
    when the page was loaded, or it is the flag key of one of the supplied
    sections and holds ["0"] or ["1"]; no entry is removed and no foreign key
    is touched. *)
Theorem session_writes_only_section_flags
    (items : list Accordion.AccordionItem) (children : list Accordion2.ReactNode)
    (storage : gmap string string) (evs : list Event) (p1 p2 : Page) :
  Accordion.run items (Accordion.init items storage) evs = Some p1 →
  Accordion2.run children (Accordion2.init children storage) evs = Some p2 →
  onlyFlagsWritten ((fun item => storageKey (Accordion.id item)) <$> items)
    storage (sessionStorage p1) ∧
  onlyFlagsWritten
    ((fun props => storageKey (Accordion2.id props)) <$> Accordion2.validChildren children)
    storage (sessionStorage p2).
Proof.
  intros Hrun1 Hrun2. split.
  - apply (prerendered_onlyFlagsWritten items evs _ p1 (init_prerendered items storage)
             Hrun1).
  - rewrite sim_run in Hrun2.
    pose proof (prerendered_onlyFlagsWritten _ evs _ p2
                  (sim_init_prerendered children storage) Hrun2) as H.
    unfold Accordion2.toItems in H. by rewrite <- list_fmap_compose in H.
Qed.

Lemma session_writes_only_section_flags_witness :
  let storage : gmap string string := {["theme" := "dark"]} in
  ∃ p1 p2,
    Accordion.run Demo.items (Accordion.init Demo.items storage) Demo.session = Some p1 ∧
    Accordion2.run Demo.children (Accordion2.init Demo.children storage) Demo.session
      = Some p2 ∧
    sessionStorage p1 !! "theme" = Some "dark" ∧
    sessionStorage p2 !! "theme" = Some "dark".
Proof.
  intros storage.
  destruct (Accordion.run Demo.items (Accordion.init Demo.items storage) Demo.session)
    as [p1|] eqn:Hrun1; [|vm_compute in Hrun1; discriminate Hrun1].
  destruct (Accordion2.run Demo.children (Accordion2.init Demo.children storage)
              Demo.session)
    as [p2|] eqn:Hrun2; [|vm_compute in Hrun2; discriminate Hrun2].
  exists p1, p2. split; [reflexivity|]. split; [reflexivity|].
  destruct (session_writes_only_section_flags Demo.items Demo.children storage
              Demo.session p1 p2 Hrun1 Hrun2) as [H1 H2].
  split.
  - destruct (H1 "theme") as [->|[Hin _]]; [reflexivity|].
    vm_compute in Hin. exfalso.
    apply list_elem_of_In in Hin. cbn in Hin.
    destruct Hin as [Hk|[Hk|[]]]; discriminate Hk.
  - destruct (H2 "theme") as [->|[Hin _]]; [reflexivity|].
    vm_compute in Hin. exfalso.
    apply list_elem_of_In in Hin. cbn in Hin.
    destruct Hin as [Hk|[Hk|[]]]; discriminate Hk.
Defined.

(** ** Clicking a heading *)

Section heading_clicks.
Import React Accordion.




End heading_clicks.



(** ** The show-all control over time *)

Section show_all.
Import React Accordion.

End show_all.



(** ** Toggles composed *)

Section toggles.
Import React Accordion.


End toggles.



(** ** What is rendered *)

(** X6.  The ARIA references of a rendered section resolve, before and
    after hydration: the content element carries the section id and is
    labelled by [<id>-heading]; an element with that heading id is rendered
    (the static span itself, or the text span inside the button); and the
    button's [aria-controls] names the content element. *)
Theorem aria_references_resolve
    (item : Accordion.AccordionItem) (props : Accordion2.AccordionItemProps) (p : Page) :
  let labelPath := if hydrated p then [0; 0; 0; 0]%nat else [0; 0; 0]%nat in
  (let section := Accordion.renderSection p item in
   React.descend [1]%nat section ≫= React.attrOf "id" =
     Some (React.AttrString (Accordion.id item)) ∧
   React.descend [1]%nat section ≫= React.attrOf "aria-labelledby" =
     Some (React.AttrString (Accordion.id item +:+ "-heading")) ∧
   React.descend labelPath section ≫= React.attrOf "id" =
     Some (React.AttrString (Accordion.id item +:+ "-heading")) ∧
   (hydrated p = true →
    React.descend Accordion.headingPath section ≫= React.attrOf "aria-controls" =
      Some (React.AttrString (Accordion.id item)))) ∧
  (let section := Accordion2.renderSection p props in
   React.descend [1]%nat section ≫= React.attrOf "id" =
     Some (React.AttrString (Accordion2.id props)) ∧
   React.descend [1]%nat section ≫= React.attrOf "aria-labelledby" =
     Some (React.AttrString (Accordion2.id props +:+ "-heading")) ∧
   React.descend labelPath section ≫= React.attrOf "id" =
     Some (React.AttrString (Accordion2.id props +:+ "-heading")) ∧
   (hydrated p = true →
    React.descend Accordion2.headingPath section ≫= React.attrOf "aria-controls" =
      Some (React.AttrString (Accordion2.id props)))).
Proof.
  unfold Accordion.renderSection, Accordion.AccordionSection,
    Accordion.AccordionHeadingButton, Accordion2.renderSection,
    Accordion2.Accordion2Item, Accordion2.AccordionHeadingButton, Accordion2.contextOf.
  cbn [Accordion2.contextHydrated Accordion2.contextExpandedSectionIds].
  destruct (hydrated p); cbn; by repeat split.
Qed.

Section controls_and_headings.
Import React Accordion.

Lemma controls_aria_expanded (items : list AccordionItem) (p : Page) :
  hydrated p = true →
  (renderControls items p ≫= descend showAllPath) ≫= attrOf "aria-expanded" =
  Some (AttrBool (allExpanded items (expandedSectionIds p))).
Proof. intros Hh. unfold renderControls, AccordionControls. by rewrite Hh. Qed.

Lemma heading_aria_expanded (item : AccordionItem) (p : Page) :
  hydrated p = true →
  descend headingPath (renderSection p item) ≫= attrOf "aria-expanded" =
  Some (AttrBool (bool_decide (id item ∈ expandedSectionIds p))).
Proof.
  intros Hh. unfold renderSection, AccordionSection, AccordionHeadingButton.
  by rewrite Hh.
Qed.

Lemma controls_agree_with_headings (items : list AccordionItem) (p : Page) :
  hydrated p = true →
  (renderControls items p ≫= descend showAllPath) ≫= attrOf "aria-expanded" =
    Some (AttrBool true) ↔
  ∀ item, item ∈ items →
    descend headingPath (renderSection p item) ≫= attrOf "aria-expanded" =
      Some (AttrBool true).
Proof.
  intros Hh. rewrite controls_aria_expanded by done. split.
  - intros [= Hall]. intros item Hin. rewrite heading_aria_expanded by done.
    do 2 f_equal. apply bool_decide_eq_true. by apply (allExpanded_true items).
  - intros Hall. do 2 f_equal. apply allExpanded_true. intros item Hin.
    specialize (Hall item Hin). rewrite heading_aria_expanded in Hall by done.
    injection Hall as Hall. by apply bool_decide_eq_true in Hall.
Qed.
End controls_and_headings.

(** X7.  On a hydrated page the show-all control announces
    [aria-expanded = true] exactly when every rendered section button
    does. *)
Theorem show_all_reads_expanded_iff_every_heading_does
    (items : list Accordion.AccordionItem) (children : list Accordion2.ReactNode)
    (p : Page) :
  hydrated p = true →
  ((Accordion.renderControls items p ≫= React.descend Accordion.showAllPath)
     ≫= React.attrOf "aria-expanded" = Some (React.AttrBool true) ↔
   ∀ item, item ∈ items →
     React.descend Accordion.headingPath (Accordion.renderSection p item)
       ≫= React.attrOf "aria-expanded" = Some (React.AttrBool true)) ∧
  ((Accordion2.renderControls children p ≫= React.descend Accordion2.showAllPath)
     ≫= React.attrOf "aria-expanded" = Some (React.AttrBool true) ↔
   ∀ props, props ∈ Accordion2.validChildren children →
     React.descend Accordion2.headingPath (Accordion2.renderSection p props)
       ≫= React.attrOf "aria-expanded" = Some (React.AttrBool true)).
Proof.
  intros Hh. split; [by apply controls_agree_with_headings|].
  assert (∀ props,
    React.descend Accordion2.headingPath (Accordion2.renderSection p props)
      ≫= React.attrOf "aria-expanded" =
    React.descend Accordion.headingPath
      (Accordion.renderSection p (Accordion2.toItem props))
      ≫= React.attrOf "aria-expanded") as Hsame.
  { intros props.
    unfold Accordion.renderSection, Accordion.AccordionSection,
      Accordion.AccordionHeadingButton, Accordion2.renderSection,
      Accordion2.Accordion2Item, Accordion2.AccordionHeadingButton, Accordion2.contextOf.
    cbn [Accordion2.contextHydrated Accordion2.contextExpandedSectionIds].
    by rewrite Hh. }
  assert ((Accordion2.renderControls children p ≫= React.descend Accordion2.showAllPath)
            ≫= React.attrOf "aria-expanded" =
          (Accordion.renderControls (Accordion2.toItems children) p
             ≫= React.descend Accordion.showAllPath)
            ≫= React.attrOf "aria-expanded") as ->.
  { unfold Accordion2.renderControls, Accordion.renderControls,
      Accordion.AccordionControls.
    rewrite Hh. cbn. by rewrite sim_allExpanded. }
  rewrite controls_agree_with_headings by done. split.
  - intros H props Hin. rewrite Hsame. by apply H, toItem_elem_of.
  - intros H item (props & -> & Hin)%list_elem_of_fmap. rewrite <- Hsame. by apply H.
Qed.

Lemma show_all_reads_expanded_iff_every_heading_does_witness :
  hydrated Demo.mounted = true ∧
  (Accordion.renderControls Demo.items Demo.mounted ≫= React.descend Accordion.showAllPath)
    ≫= React.attrOf "aria-expanded" ≠ Some (React.AttrBool true).
Proof.
  assert (hydrated Demo.mounted = true) as Hh by reflexivity.
  split; [exact Hh|].
  intros Hall.
  assert (Demo.details ∈ Demo.items) as Hin
    by apply list_elem_of_further, list_elem_of_here.
  pose proof (proj1 (proj1 (show_all_reads_expanded_iff_every_heading_does Demo.items
                              Demo.children Demo.mounted Hh)) Hall Demo.details Hin)
    as Hopen.
  vm_compute in Hopen. discriminate Hopen.
Defined.

(** X8.  [Accordion2Item] never renders its [heading] prop: its output is
    the same whatever the heading is, and what is shown inside the heading
    element is the item's [children].  [Accordion] shows the item's
    [heading] there. *)
Theorem accordion2_item_ignores_heading
    (props : Accordion2.AccordionItemProps) (item : Accordion.AccordionItem) (p : Page) :
  let textPath := if hydrated p then [0; 0; 0; 0; 0; 0]%nat else [0; 0; 0; 0]%nat in
  (∀ heading',
     Accordion2.renderSection p
       {| Accordion2.heading := heading';
          Accordion2.id := Accordion2.id props;
          Accordion2.defaultExpanded := Accordion2.defaultExpanded props;
          Accordion2.children := Accordion2.children props |} =
     Accordion2.renderSection p props) ∧
  React.descend textPath (Accordion2.renderSection p props) =
    Some (React.renderChild (Accordion2.children props)) ∧
  React.descend textPath (Accordion.renderSection p item) =
    Some (React.renderChild (Accordion.heading item)).
Proof.
  unfold Accordion.renderSection, Accordion.AccordionSection,
    Accordion.AccordionHeadingButton, Accordion2.renderSection,
    Accordion2.Accordion2Item, Accordion2.AccordionHeadingButton, Accordion2.contextOf.
  cbn [Accordion2.contextHydrated Accordion2.contextExpandedSectionIds].
  destruct (hydrated p); cbn; by repeat split.
Qed.

(** ** Sessions without stored flags, and children that are not elements *)

(** X9.  On a session storage that holds no flag of any section, the first
    mount expands exactly the sections whose [defaultExpanded] hint is
    truthy.  For Accordion2 that is the set it was first rendered with, so
    the mount leaves its expanded set unchanged. *)
Theorem fresh_session_expands_hinted_sections
    (items : list Accordion.AccordionItem) (children : list Accordion2.ReactNode)
    (storage : gmap string string) :
  (∀ item, item ∈ items →
     SessionStorage.getItem storage (storageKey (Accordion.id item)) = None) →
  (∀ props, props ∈ Accordion2.validChildren children →
     SessionStorage.getItem storage (storageKey (Accordion2.id props)) = None) →
  (∃ p, Accordion.step items (Accordion.init items storage) Mount = Some p ∧
        expandedSectionIds p =
          list_to_set
            (Accordion.id <$>
               List.filter (fun item => React.truthy (Accordion.defaultExpanded item))
                 items)) ∧
  (∃ p, Accordion2.step children (Accordion2.init children storage) Mount = Some p ∧
        expandedSectionIds p =
          expandedSectionIds (Accordion2.init children storage)).
Proof.
  intros Hnone Hnone2. split.
  - rewrite step_Mount_init. eexists. split; [reflexivity|]. cbn. do 2 f_equal.
    apply filter_ext_in. intros item Hin%list_elem_of_In.
    unfold Accordion.storedOrDefault. by rewrite Hnone.
  - rewrite step_Mount_init2. eexists. split; [reflexivity|]. cbn.
    unfold Accordion2.initialExpandedSectionIds, Accordion2.toItems.
    rewrite filter_fmap, <- list_fmap_compose. f_equal.
    f_equal. apply filter_ext_in. intros props Hin%list_elem_of_In.
    unfold Accordion.storedOrDefault. cbn. by rewrite Hnone2.
Qed.

Lemma fresh_session_expands_hinted_sections_witness :
  (∀ item, item ∈ Demo.items →
     SessionStorage.getItem (∅ : gmap string string) (storageKey (Accordion.id item))
       = None) ∧
  (∀ props, props ∈ Accordion2.validChildren Demo.children →
     SessionStorage.getItem (∅ : gmap string string) (storageKey (Accordion2.id props))
       = None) ∧
  (∃ p, Accordion2.step Demo.children (Accordion2.init Demo.children ∅) Mount = Some p ∧
        expandedSectionIds p = expandedSectionIds (Accordion2.init Demo.children ∅)).
Proof.
  assert (∀ item, item ∈ Demo.items →
     SessionStorage.getItem (∅ : gmap string string) (storageKey (Accordion.id item))
       = None) as H1 by (intros item _; reflexivity).
  assert (∀ props, props ∈ Accordion2.validChildren Demo.children →
     SessionStorage.getItem (∅ : gmap string string) (storageKey (Accordion2.id props))
       = None) as H2 by (intros props _; reflexivity).
  split; [exact H1|]. split; [exact H2|].
  exact (proj2 (fresh_session_expands_hinted_sections Demo.items Demo.children ∅ H1 H2)).
Defined.

(** X10.  Only the element children of Accordion2 take part in its state:
    two child lists with the same valid elements, whatever text sits between
    them, go through every session in the same way (same events possible,
    same expanded sets, storage and section DOM). *)
Theorem accordion2_state_ignores_text_children
    (children1 children2 : list Accordion2.ReactNode) (storage : gmap string string)
    (evs : list Event) :
  Accordion2.validChildren children1 = Accordion2.validChildren children2 →
  Accordion2.run children1 (Accordion2.init children1 storage) evs =
  Accordion2.run children2 (Accordion2.init children2 storage) evs.
Proof.
  intros Hvalid. rewrite !sim_run.
  unfold Accordion2.init, Accordion2.initialExpandedSectionIds, Accordion2.toItems.
  by rewrite Hvalid.
Qed.

Lemma accordion2_state_ignores_text_children_witness :
  Accordion2.validChildren Demo.children =
    Accordion2.validChildren (Accordion2.ofItems Demo.items) ∧
  Accordion2.run Demo.children (Accordion2.init Demo.children ∅) Demo.session =
  Accordion2.run (Accordion2.ofItems Demo.items)
    (Accordion2.init (Accordion2.ofItems Demo.items) ∅) Demo.session.
Proof.
  assert (Accordion2.validChildren Demo.children =
            Accordion2.validChildren (Accordion2.ofItems Demo.items)) as Hv
    by reflexivity.
  split; [exact Hv|].
  exact (accordion2_state_ignores_text_children Demo.children
           (Accordion2.ofItems Demo.items) ∅ Demo.session Hv).
Defined.

(** ** Before the first commit *)

(** X11.  The first render is inert.  Until the first commit no click and
    no [beforematch] event can reach the component (no handler is rendered,
    no listener attached), and the content of every section is rendered
    without a [hidden] attribute; the first commit itself is always
    possible and makes the page hydrated. *)
Theorem first_render_is_inert
    (items : list Accordion.AccordionItem) (children : list Accordion2.ReactNode)
    (item : Accordion.AccordionItem) (props : Accordion2.AccordionItemProps)
    (storage : gmap string string) (ev : Event) (p : Page) :
  ev ≠ Mount →
  (Accordion.step items (Accordion.init items storage) ev = None ∧
   (∃ p', Accordion.step items (Accordion.init items storage) Mount = Some p' ∧
          hydrated p' = true) ∧
   React.descend [1]%nat (Accordion.renderSection p item) ≫= React.attrOf "hidden" = None) ∧
  (Accordion2.step children (Accordion2.init children storage) ev = None ∧
   (∃ p', Accordion2.step children (Accordion2.init children storage) Mount = Some p' ∧
          hydrated p' = true) ∧
   React.descend [1]%nat (Accordion2.renderSection p props) ≫= React.attrOf "hidden"
     = None).
Proof.
  intros Hev. split.
  - split; [|split; [|done]].
    + destruct (init_prerendered items storage) as (Hh & Hs & _).
      rewrite step_prerendered by done. by destruct ev.
    + rewrite step_Mount_init. by eexists.
  - split; [|split; [|done]].
    + destruct (sim_init_prerendered children storage) as (Hh & Hs & _).
      rewrite sim_step, step_prerendered by done. by destruct ev.
    + rewrite step_Mount_init2. by eexists.
Qed.

Lemma first_render_is_inert_witness :
  ClickHeading 0 ≠ Mount ∧
  Accordion.step Demo.items (Accordion.init Demo.items ∅) (ClickHeading 0) = None ∧
  Accordion2.step Demo.children (Accordion2.init Demo.children ∅) (ClickHeading 0) = None.
Proof.
  assert (ClickHeading 0 ≠ Mount) as Hev by (intros H; discriminate H).
  split; [exact Hev|].
  destruct (first_render_is_inert Demo.items Demo.children Demo.intro Demo.introProps ∅
              (ClickHeading 0) Demo.mounted Hev) as [(H1 & _) (H2 & _)].
  split; assumption.
Defined.

(** ** Visual state and announced state *)

(** X12.  On a hydrated page the visual state of a section and the state
    it announces agree: the section carries the class modifier
    [govuk-accordion__section--expanded] exactly when its button has
    [aria-expanded = true], which is exactly when the toggle reads "Hide"
    (and "Show" otherwise) and the chevron lacks the [--down] modifier. *)
Theorem section_class_agrees_with_aria_expanded
    (item : Accordion.AccordionItem) (props : Accordion2.AccordionItemProps) (p : Page) :
  hydrated p = true →
  (let section := Accordion.renderSection p item in
   let expanded := bool_decide (Accordion.id item ∈ expandedSectionIds p) in
   React.descend Accordion.headingPath section ≫= React.attrOf "aria-expanded" =
     Some (React.AttrBool expanded) ∧
   (classOf section =
      Some "govuk-accordion__section govuk-accordion__section--expanded" ↔
    expanded = true) ∧
   (React.descend [0; 0; 0; 2; 0; 1; 0]%nat section = Some (React.TextNode "Hide") ↔
    expanded = true) ∧
   (React.descend [0; 0; 0; 2; 0; 1; 0]%nat section = Some (React.TextNode "Show") ↔
    expanded = false) ∧
   (React.descend [0; 0; 0; 2; 0; 0]%nat section ≫= classOf =
      Some "govuk-accordion-nav__chevron govuk-accordion-nav__chevron--down" ↔
    expanded = false)) ∧
  (let section := Accordion2.renderSection p props in
   let expanded := bool_decide (Accordion2.id props ∈ expandedSectionIds p) in
   React.descend Accordion2.headingPath section ≫= React.attrOf "aria-expanded" =
     Some (React.AttrBool expanded) ∧
   (classOf section =
      Some "govuk-accordion__section govuk-accordion__section--expanded" ↔
    expanded = true) ∧
   (React.descend [0; 0; 0; 2; 0; 1; 0]%nat section = Some (React.TextNode "Hide") ↔
    expanded = true) ∧
   (React.descend [0; 0; 0; 2; 0; 1; 0]%nat section = Some (React.TextNode "Show") ↔
    expanded = false) ∧
   (React.descend [0; 0; 0; 2; 0; 0]%nat section ≫= classOf =
      Some "govuk-accordion-nav__chevron govuk-accordion-nav__chevron--down" ↔
    expanded = false)).
Proof.
  intros Hh.
  unfold Accordion.renderSection, Accordion.AccordionSection,
    Accordion.AccordionHeadingButton, Accordion2.renderSection,
    Accordion2.Accordion2Item, Accordion2.AccordionHeadingButton, Accordion2.contextOf.
  cbn [Accordion2.contextHydrated Accordion2.contextExpandedSectionIds].
  rewrite Hh. cbn zeta.
  split.
  - destruct (bool_decide (Accordion.id item ∈ expandedSectionIds p));
      vm_compute; repeat split; intros H; try done; discriminate H.
  - destruct (bool_decide (Accordion2.id props ∈ expandedSectionIds p));
      vm_compute; repeat split; intros H; try done; discriminate H.
Qed.

Lemma section_class_agrees_with_aria_expanded_witness :
  hydrated Demo.mounted = true ∧
  classOf (Accordion.renderSection Demo.mounted Demo.intro) =
    Some "govuk-accordion__section govuk-accordion__section--expanded" ∧
  classOf (Accordion2.renderSection Demo.mounted Demo.detailsProps) =
    Some "govuk-accordion__section".
Proof.
  assert (hydrated Demo.mounted = true) as Hh by reflexivity.
  split; [exact Hh|].
  destruct (section_class_agrees_with_aria_expanded Demo.intro Demo.detailsProps
              Demo.mounted Hh) as [(_ & Hclass & _) _].
  split.
  - apply Hclass. vm_compute. reflexivity.
  - vm_compute. reflexivity.
Defined.
